(** * TTL management of room-scoped game state in Redis

    A shallow embedding of [GameRedisMemoryService]
    (BE/src/game/redis/game-redis-memory.service.ts): the periodic sweep
    [manageTTL], the page worker [processBatch], the two membership
    refreshers [setPlayersTTL] and [setQuizTTL], and the on-demand entry
    point [setRoomTTL].

    The service is asynchronous code over a Redis client.  Every [async]
    method is embedded as a tree of store round trips ([prog]); the Redis
    server is an explicit state ([world]) that answers one request at a
    time; [Promise.allSettled] is an event loop that serves the requests
    in flight in the order they were sent. *)

From Stdlib Require Import ZArith String Ascii List Permutation Lia.
From stdpp Require Import base option list gmap strings fin_maps.

Import ListNotations.
Local Open Scope string_scope.
Local Open Scope Z_scope.
Local Open Scope list_scope.

(** ** JavaScript strings *)

(** Strings are sequences of code units; the service only ever looks for
    the one-unit separator [:] in them.

    [s.split(sep)] for a one-character separator: the segments between
    the occurrences of [sep], in order; never the empty array. *)
Fixpoint split (sep : ascii) (s : string) : list string :=
  match s with
  | EmptyString => [EmptyString]
  | String c rest =>
      if Ascii.eqb c sep then EmptyString :: split sep rest
      else match split sep rest with
           | seg :: segs => String c seg :: segs
           | [] => [String c EmptyString]
           end
  end.

(** Truthiness of [arr[i]] for an array of strings: [undefined] and the
    empty string are falsy. *)
Definition truthy (v : option string) : bool :=
  match v with
  | None => false
  | Some EmptyString => false
  | Some (String _ _) => true
  end.

(** ** Key naming *)

Module REDIS_KEY.

(** Modelled from the spec: the constant table
    common/constants/redis-key.constant.ts is not part of the sources at
    hand; the key shapes are those of the key naming convention
    ([Room:{roomId}], [Room:{roomId}:Players], ...). *)
Definition ROOM (roomId : string) : string := "Room:" +:+ roomId.
Definition ROOM_PLAYERS (roomId : string) : string :=
  "Room:" +:+ roomId +:+ ":Players".
Definition ROOM_LEADERBOARD (roomId : string) : string :=
  "Room:" +:+ roomId +:+ ":Leaderboard".
Definition ROOM_CURRENT_QUIZ (roomId : string) : string :=
  "Room:" +:+ roomId +:+ ":CurrentQuiz".
Definition PLAYER (playerId : string) : string := "Player:" +:+ playerId.
Definition ROOM_QUIZ_SET (roomId : string) : string :=
  "Room:" +:+ roomId +:+ ":QuizSet".
Definition ROOM_QUIZ (roomId quizId : string) : string :=
  "Room:" +:+ roomId +:+ ":Quiz:" +:+ quizId.
Definition ROOM_QUIZ_CHOICES (roomId quizId : string) : string :=
  "Room:" +:+ roomId +:+ ":Quiz:" +:+ quizId +:+ ":Choices".

End REDIS_KEY.

(** ** Configuration *)

Definition BATCH_SIZE : Z := 100.

Module TTL.
Definition ROOM : Z := 3 * 60 * 60.
Definition PLAYER : Z := 2 * 60 * 60.
Definition QUIZ : Z := 1 * 60 * 60.
Definition LEADERBOARD : Z := 3 * 60 * 60.
End TTL.

(** ** The store *)

(** A Redis value: the service only reads sets ([SMEMBERS]); every other
    type (hash, sorted set, string) answers [SMEMBERS] with WRONGTYPE. *)
Inductive rvalue : Type :=
| VSet (members : list string)
| VOther.

(** A key's entry: its value and its time to live in seconds ([None]: the
    key is persistent). *)
Record entry : Type := Entry { value : rvalue; ttl : option Z }.

Abbreviation keyspace := (gmap string entry).

(** A command queued on a pipeline; the service queues only [EXPIRE]. *)
Inductive command : Type :=
| Expire (key : string) (seconds : Z).

(** [EXPIRE key seconds]: 0 when the key does not exist (nothing
    changes); otherwise 1, and the key gets the new time to live, or is
    deleted when the time is not positive. *)
Definition expire (key : string) (seconds : Z) (db : keyspace) : Z * keyspace :=
  match db !! key with
  | None => (0, db)
  | Some e =>
      if seconds <=? 0 then (1, delete key db)
      else (1, <[key := Entry (value e) (Some seconds)]> db)
  end.

Definition execCommand (c : command) (db : keyspace) : Z * keyspace :=
  match c with
  | Expire key seconds => expire key seconds db
  end.

(** A pipeline runs its commands in the order they were queued and
    answers with one reply per command. *)
Fixpoint execPipeline (batch : list command) (db : keyspace) : list Z * keyspace :=
  match batch with
  | [] => ([], db)
  | c :: rest =>
      let '(r, db1) := execCommand c db in
      let '(rs, db2) := execPipeline rest db1 in
      (r :: rs, db2)
  end.

(** ** Round trips to the store *)

(** What the client asks of the server in one round trip. *)
Inductive request : Type :=
| Scan (cursor pattern : string) (count : Z)
| Smembers (key : string)
| Exec (batch : list command).

(** The reply each request is answered with: [SCAN] gives the next cursor
    and a page of keys, [SMEMBERS] the members, a pipeline one reply per
    command. *)
Definition reply (rq : request) : Type :=
  match rq with
  | Scan _ _ _ => (string * list string)%type
  | Smembers _ => list string
  | Exec _ => list Z
  end.

(** A settled promise. *)
Inductive settled (A : Type) : Type :=
| Fulfilled (v : A)
| Rejected (reason : string).
Arguments Fulfilled {A} v.
Arguments Rejected {A} reason.

(** A line written through the Nest logger: [logger.verbose(message)] or
    [logger.error(message, detail)]. *)
Inductive logEntry : Type :=
| Verbose (message : string)
| Error (message detail : string).

(** ** Asynchronous methods

    An [async] method is a tree: it returns, throws, logs (synchronously)
    and goes on, or awaits a round trip and goes on with the settled
    reply.  [Diverge] stands for a loop that did not finish within the
    bound it was given. *)
Inductive prog (A : Type) : Type :=
| Ret (a : A)
| Throw (reason : string)
| Log (l : logEntry) (k : prog A)
| Await (rq : request) (k : settled (reply rq) -> prog A)
| Diverge.
Arguments Ret {A} a.
Arguments Throw {A} reason.
Arguments Log {A} l k.
Arguments Await {A} rq k.
Arguments Diverge {A}.

Fixpoint bind {A B : Type} (p : prog A) (f : A -> prog B) : prog B :=
  match p with
  | Ret a => f a
  | Throw reason => Throw reason
  | Log l k => Log l (bind k f)
  | Await rq k => Await rq (fun r => bind (k r) f)
  | Diverge => Diverge
  end.

Notation "x <- p ;; k" := (bind p (fun x => k))
  (at level 100, p at next level, right associativity).

(** [try { p } catch (error) { handler(error?.message) }] *)
Fixpoint tryCatch {A : Type} (p : prog A) (handler : string -> prog A) : prog A :=
  match p with
  | Ret a => Ret a
  | Throw reason => handler reason
  | Log l k => Log l (tryCatch k handler)
  | Await rq k => Await rq (fun r => tryCatch (k r) handler)
  | Diverge => Diverge
  end.

(** [await client.request(...)]: a rejected round trip throws at the
    await. *)
Definition await (rq : request) : prog (reply rq) :=
  Await rq (fun r => match r with
                     | Fulfilled v => Ret v
                     | Rejected reason => Throw reason
                     end).

(** ** The service *)

Definition baseKeys (roomId : string) : list string :=
  [ REDIS_KEY.ROOM roomId;
    REDIS_KEY.ROOM_PLAYERS roomId;
    REDIS_KEY.ROOM_LEADERBOARD roomId;
    REDIS_KEY.ROOM_CURRENT_QUIZ roomId ].

(** One turn of the loop over [rooms] in [processBatch]. *)
Definition enqueueRoom (pipeline : list command) (roomKey : string) : list command :=
  let roomId := split ":" roomKey !! 1%nat in
  match roomId with
  | Some id =>
      if negb (truthy roomId) then pipeline
      else fold_left (fun pipeline key => pipeline ++ [Expire key TTL.ROOM])
                     (baseKeys id) pipeline
  | None => pipeline
  end.

Definition processBatch (rooms : list string) : prog unit :=
  let pipeline := fold_left enqueueRoom rooms [] in
  _ <- await (Exec pipeline) ;;
  Ret tt.

Definition setPlayersTTL (roomId : string) : prog unit :=
  tryCatch
    (players <- await (Smembers (REDIS_KEY.ROOM_PLAYERS roomId)) ;;
     let pipeline :=
       fold_left (fun pipeline playerId =>
                    pipeline ++ [Expire (REDIS_KEY.PLAYER playerId) TTL.PLAYER])
                 players [] in
     _ <- await (Exec pipeline) ;;
     Ret tt)
    (fun message =>
       Log (Error ("플레이어 TTL 설정 실패 - Room: " +:+ roomId) message) (Ret tt)).

Definition setQuizTTL (roomId : string) : prog unit :=
  tryCatch
    (quizList <- await (Smembers (REDIS_KEY.ROOM_QUIZ_SET roomId)) ;;
     let pipeline :=
       fold_left (fun pipeline quizId =>
                    (pipeline ++ [Expire (REDIS_KEY.ROOM_QUIZ roomId quizId) TTL.QUIZ])
                      ++ [Expire (REDIS_KEY.ROOM_QUIZ_CHOICES roomId quizId) TTL.QUIZ])
                 quizList [] in
     _ <- await (Exec pipeline) ;;
     Ret tt)
    (fun message =>
       Log (Error ("퀴즈 TTL 설정 실패 - Room: " +:+ roomId) message) (Ret tt)).

(** The [do ... while (cursor !== '0')] loop of [manageTTL], unrolled at
    most [fuel] times. *)
Fixpoint scanLoop (fuel : nat) (cursor : string) : prog unit :=
  match fuel with
  | O => Diverge
  | S fuel' =>
      page <- await (Scan cursor "Room:*" BATCH_SIZE) ;;
      let '(nextCursor, rooms) := page in
      _ <- (if (0 <? length rooms)%nat then processBatch rooms else Ret tt) ;;
      if negb (String.eqb nextCursor "0") then scanLoop fuel' nextCursor
      else Ret tt
  end.

Definition manageTTL (fuel : nat) : prog unit :=
  tryCatch
    (_ <- scanLoop fuel "0" ;;
     Log (Verbose "TTL 관리 완료") (Ret tt))
    (fun message => Log (Error "TTL 관리 실패" message) (Ret tt)).

(** The three promises [setRoomTTL] hands to [Promise.allSettled], in the
    order of the array. *)
Definition roomTasks (roomId : string) : list (prog unit) :=
  [ processBatch [REDIS_KEY.ROOM roomId];
    setPlayersTTL roomId;
    setQuizTTL roomId ].

(** ** The server and the transport *)

(** The state the methods run against: the keyspace of the server, the
    round trips made so far (each with the reason it was rejected for, if
    it was), and the lines logged so far. *)
Record world : Type := World {
  db : keyspace;
  trace : list (request * option string);
  log : list logEntry
}.

Definition addLog (l : logEntry) (w : world) : world :=
  World (db w) (trace w) (log w ++ [l]).

Definition WRONGTYPE : string :=
  "WRONGTYPE Operation against a key holding the wrong kind of value".

Definition reasonOf {A : Type} (r : settled A) : option string :=
  match r with
  | Fulfilled _ => None
  | Rejected reason => Some reason
  end.

(** [SMEMBERS key]: the members of the set, none when the key does not
    exist, and an error when the key holds something else. *)
Definition execMembers (key : string) (d : keyspace)
  : settled (list string) * keyspace :=
  match d !! key with
  | None => (Fulfilled [], d)
  | Some e =>
      match value e with
      | VSet members => (Fulfilled members, d)
      | VOther => (Rejected WRONGTYPE, d)
      end
  end.

(** The injected Redis client, as far as the service can tell one from
    another.  [scanImpl keys cursor pattern count] is how the server
    pages through the keys on [SCAN cursor MATCH pattern COUNT count]: it
    depends on the set of keys only, and is left open.  [fault n] is the
    transport: [Some reason] when the [n]-th round trip (counted from the
    start of the trace) is lost, and its promise rejected with
    [reason]. *)
Class Redis : Type := {
  scanImpl : gset string -> string -> string -> Z -> string * list string;
  fault : nat -> option string
}.

Section Service.

Context {redis : Redis}.

(** The server's answer to a request that reached it. *)
Definition serve (rq : request) (d : keyspace) : settled (reply rq) * keyspace :=
  match rq return settled (reply rq) * keyspace with
  | Scan cursor pattern count =>
      (Fulfilled (scanImpl (dom d) cursor pattern count), d)
  | Smembers key => execMembers key d
  | Exec batch =>
      let '(replies, d') := execPipeline batch d in
      (Fulfilled replies, d')
  end.

(** One round trip: lost in transport (the store is untouched), or
    served.  [pipeline.exec()] counts as a round trip whatever the
    pipeline holds, the empty pipeline included, and a lost one rejects
    its promise like any other request.  This allows the service more
    failures than the ioredis client shows it, which reports a failed
    pipeline in the replies of its commands and resolves: what holds for
    every [fault] holds for the client as well. *)
Definition roundTrip (rq : request) (w : world) : settled (reply rq) * world :=
  match fault (length (trace w)) with
  | Some reason =>
      (Rejected reason, World (db w) (trace w ++ [(rq, Some reason)]) (log w))
  | None =>
      let '(r, d) := serve rq (db w) in
      (r, World d (trace w ++ [(rq, reasonOf r)]) (log w))
  end.

(** Running one method on its own, to the end: [None] when it did not
    finish. *)
Fixpoint run {A : Type} (p : prog A) (w : world) : option (settled A) * world :=
  match p with
  | Ret a => (Some (Fulfilled a), w)
  | Throw reason => (Some (Rejected reason), w)
  | Log l k => run k (addLog l w)
  | Await rq k =>
      let '(r, w') := roundTrip rq w in
      run (k r) w'
  | Diverge => (None, w)
  end.

(** *** The event loop under [Promise.allSettled]

    Calling an [async] method runs it up to its first [await]; the
    request of that await is then in flight.  Replies come back in the
    order the requests were sent (one connection), and each reply resumes
    its method up to the next [await]. *)
Inductive task (A : Type) : Type :=
| Settled (s : settled A)
| InFlight (rq : request) (k : settled (reply rq) -> prog A)
| Stuck.
Arguments Settled {A} s.
Arguments InFlight {A} rq k.
Arguments Stuck {A}.

Fixpoint start {A : Type} (p : prog A) (w : world) : task A * world :=
  match p with
  | Ret a => (Settled (Fulfilled a), w)
  | Throw reason => (Settled (Rejected reason), w)
  | Log l k => start k (addLog l w)
  | Await rq k => (InFlight rq k, w)
  | Diverge => (Stuck, w)
  end.

Definition inFlight {A : Type} (t : task A) : bool :=
  match t with
  | InFlight _ _ => true
  | _ => false
  end.

(** The array of promises is built left to right: each call runs to its
    first await before the next call is made.  The queue lists the tasks
    with a request in flight, oldest request first. *)
Fixpoint startAll {A : Type} (ps : list (prog A)) (i : nat) (w : world)
  : list (task A) * list nat * world :=
  match ps with
  | [] => ([], [], w)
  | p :: rest =>
      let '(t, w1) := start p w in
      let '(ts, queue, w2) := startAll rest (S i) w1 in
      (t :: ts, (if inFlight t then [i] else []) ++ queue, w2)
  end.

(** One turn of the loop takes the oldest request in flight, makes its
    round trip and resumes its task; [fuel] bounds the number of turns.
    A queue entry whose task has no request in flight is dropped; the
    loop itself never queues one. *)
Fixpoint eventLoop {A : Type} (fuel : nat) (tasks : list (task A))
    (queue : list nat) (w : world) : option (list (task A) * world) :=
  match queue with
  | [] => Some (tasks, w)
  | i :: queue' =>
      match fuel with
      | O => None
      | S fuel' =>
          match tasks !! i with
          | Some (InFlight rq k) =>
              let '(r, w1) := roundTrip rq w in
              let '(t, w2) := start (k r) w1 in
              eventLoop fuel' (<[i := t]> tasks)
                        (queue' ++ (if inFlight t then [i] else [])) w2
          | _ => eventLoop fuel' tasks queue' w
          end
      end
  end.

Definition outcomeOf {A : Type} (t : task A) : option (settled A) :=
  match t with
  | Settled s => Some s
  | _ => None
  end.

(** [await Promise.allSettled(ps)]: the outcomes of all the promises,
    once every one of them has settled. *)
Definition allSettled {A : Type} (fuel : nat) (ps : list (prog A)) (w : world)
  : option (list (settled A) * world) :=
  let '(tasks, queue, w1) := startAll ps 0%nat w in
  match eventLoop fuel tasks queue w1 with
  | Some (tasks', w2) =>
      match mapM outcomeOf tasks' with
      | Some outcomes => Some (outcomes, w2)
      | None => None
      end
  | None => None
  end.

(** [setRoomTTL] awaits the three tasks and discards their outcomes. *)
Definition setRoomTTL (fuel : nat) (roomId : string) (w : world)
  : option (settled unit * world) :=
  match allSettled fuel (roomTasks roomId) w with
  | Some (_, w') => Some (Fulfilled tt, w')
  | None => None
  end.

End Service.

(** ** Closed forms used in the statements *)

(** The room identifier [processBatch] reads off a key, when the key has
    one: the second segment, if it is there and not empty. *)
Definition roomIdOf (roomKey : string) : option string :=
  match split ":" roomKey !! 1%nat with
  | Some (String c rest) => Some (String c rest)
  | _ => None
  end.

Definition expireAll (seconds : Z) (keys : list string) : list command :=
  map (fun key => Expire key seconds) keys.

(** The commands one key of a page contributes. *)
Definition roomCommands (roomKey : string) : list command :=
  match roomIdOf roomKey with
  | Some roomId => expireAll TTL.ROOM (baseKeys roomId)
  | None => []
  end.

Definition pagePipeline (rooms : list string) : list command :=
  flat_map roomCommands rooms.

Definition playerPipeline (players : list string) : list command :=
  expireAll TTL.PLAYER (map REDIS_KEY.PLAYER players).

Definition quizPipeline (roomId : string) (quizList : list string) : list command :=
  flat_map (fun quizId =>
              [ Expire (REDIS_KEY.ROOM_QUIZ roomId quizId) TTL.QUIZ;
                Expire (REDIS_KEY.ROOM_QUIZ_CHOICES roomId quizId) TTL.QUIZ ])
           quizList.

(** The part of a string before its first [sep]. *)
Definition headSegment (sep : ascii) (s : string) : string :=
  hd EmptyString (split sep s).

Definition hasChar (c : ascii) (s : string) : Prop :=
  In c (list_ascii_of_string s).

(** What a pipeline leaves of one key: [stepEntry key] follows the entry
    under [key] through one command, [finalEntry] through a batch. *)
Definition stepEntry (key : string) (oe : option entry) (c : command) : option entry :=
  match c, oe with
  | Expire key' seconds, Some e =>
      if String.eqb key' key then
        if seconds <=? 0 then None else Some (Entry (value e) (Some seconds))
      else oe
  | _, None => None
  end.

Definition finalEntry (key : string) (batch : list command) (oe : option entry)
  : option entry :=
  fold_left (stepEntry key) batch oe.

Definition seconds (c : command) : Z :=
  match c with Expire _ s => s end.

Definition target (c : command) : string :=
  match c with Expire key _ => key end.

(** The keys of a keyspace that match [Room:*]. *)
Definition roomKeys (d : keyspace) : list string :=
  filter (fun key => String.prefix "Room:" key = true) (elements (dom d)).

Definition nonEmpty (rooms : list string) : bool := (0 <? length rooms)%nat.

(** The pipelines of a trace that reached the store, and its scans. *)
Definition delivered (tr : list (request * option string)) : list (list command) :=
  flat_map (fun entry =>
              match entry with
              | (Exec batch, None) => [batch]
              | _ => []
              end) tr.

Definition scans (tr : list (request * option string)) : list string :=
  flat_map (fun entry =>
              match entry with
              | (Scan cursor _ _, _) => [cursor]
              | _ => []
              end) tr.

Definition unfailed (tr : list (request * option string)) : Prop :=
  Forall (fun entry => snd entry = None) tr.

(** ** The schedule of [setRoomTTL] in closed form *)

Section Schedule.

Context {redis : Redis}.

(** The reply to [SMEMBERS key] sent as round trip [i] against the
    keyspace [d], and the keyspace a pipeline sent as round trip [i]
    leaves. *)
Definition readSet (i : nat) (key : string) (d : keyspace) : settled (list string) :=
  match fault i with
  | Some reason => Rejected reason
  | None => fst (serve (Smembers key) d)
  end.

Definition deliver (i : nat) (batch : list command) (d : keyspace) : keyspace :=
  match fault i with
  | Some _ => d
  | None => snd (execPipeline batch d)
  end.

Definition fulfilled {A : Type} (r : settled A) : bool :=
  match r with
  | Fulfilled _ => true
  | Rejected _ => false
  end.

(** Two keyspaces with the same keys and the same values, whatever the
    times to live. *)
Definition sameValues (d1 d2 : keyspace) : Prop :=
  forall k, value <$> (d1 !! k) = value <$> (d2 !! k).

(** What the [catch] of a refresher does with the outcome of one of its
    awaits. *)
Definition logFailure {A : Type} (message : string) (r : settled A) (w : world) : world :=
  match r with
  | Fulfilled _ => w
  | Rejected reason => addLog (Error message reason) w
  end.

Definition playersFailed (roomId : string) : string :=
  "플레이어 TTL 설정 실패 - Room: " +:+ roomId.

Definition quizFailed (roomId : string) : string :=
  "퀴즈 TTL 설정 실패 - Room: " +:+ roomId.

(** The round trips of the three tasks in the order they reach the
    server: the base pipeline, the two membership reads, then the player
    pipeline and the quiz pipeline of the reads that were answered. *)
Definition settleRoom (roomId : string) (w : world) : world :=
  let '(_, w1) :=
    roundTrip (Exec (pagePipeline [REDIS_KEY.ROOM roomId])) w in
  let '(players, w2) :=
    roundTrip (Smembers (REDIS_KEY.ROOM_PLAYERS roomId)) w1 in
  let w2 := logFailure (playersFailed roomId) players w2 in
  let '(quizList, w3) :=
    roundTrip (Smembers (REDIS_KEY.ROOM_QUIZ_SET roomId)) w2 in
  let w3 := logFailure (quizFailed roomId) quizList w3 in
  let w4 :=
    match players with
    | Fulfilled ps =>
        let '(r, w4) := roundTrip (Exec (playerPipeline ps)) w3 in
        logFailure (playersFailed roomId) r w4
    | Rejected _ => w3
    end in
  match quizList with
  | Fulfilled qs =>
      let '(r, w5) := roundTrip (Exec (quizPipeline roomId qs)) w4 in
      logFailure (quizFailed roomId) r w5
  | Rejected _ => w4
  end.

(** The same schedule, told by what it leaves: the round trips it adds
    to the trace, and the keyspace at the end.  The membership reads are
    the second and third round trip; the player pipeline, if its read was
    answered, is the fourth, and the quiz pipeline comes after it. *)
Definition roomTrace (roomId : string) (w : world) : list (request * option string) :=
  let n := length (trace w) in
  let players := readSet (n + 1) (REDIS_KEY.ROOM_PLAYERS roomId) (db w) in
  let quizList := readSet (n + 2) (REDIS_KEY.ROOM_QUIZ_SET roomId) (db w) in
  [ (Exec (pagePipeline [REDIS_KEY.ROOM roomId]), fault n);
    (Smembers (REDIS_KEY.ROOM_PLAYERS roomId), reasonOf players);
    (Smembers (REDIS_KEY.ROOM_QUIZ_SET roomId), reasonOf quizList) ]
  ++ match players with
     | Fulfilled ps => [(Exec (playerPipeline ps), fault (n + 3))]
     | Rejected _ => []
     end
  ++ match quizList with
     | Fulfilled qs =>
         [(Exec (quizPipeline roomId qs),
           fault (n + 3 + (if fulfilled players then 1 else 0)))]
     | Rejected _ => []
     end.

Definition roomDb (roomId : string) (w : world) : keyspace :=
  let n := length (trace w) in
  let players := readSet (n + 1) (REDIS_KEY.ROOM_PLAYERS roomId) (db w) in
  let quizList := readSet (n + 2) (REDIS_KEY.ROOM_QUIZ_SET roomId) (db w) in
  let d1 := deliver n (pagePipeline [REDIS_KEY.ROOM roomId]) (db w) in
  let d2 :=
    match players with
    | Fulfilled ps => deliver (n + 3) (playerPipeline ps) d1
    | Rejected _ => d1
    end in
  match quizList with
  | Fulfilled qs =>
      deliver (n + 3 + (if fulfilled players then 1 else 0))
              (quizPipeline roomId qs) d2
  | Rejected _ => d2
  end.

(** The outcome of the base task: it has no [catch] of its own. *)
Definition baseOutcome (roomId : string) (w : world) : settled unit :=
  match fst (roundTrip (Exec (pagePipeline [REDIS_KEY.ROOM roomId])) w) with
  | Fulfilled _ => Fulfilled tt
  | Rejected reason => Rejected reason
  end.

(** *** The sweep *)

(** The pages a full scan of the keys [keys] returns from [cursor] on,
    when the cursor comes back to the start within [fuel] calls. *)
Fixpoint scanPages (fuel : nat) (keys : gset string) (cursor : string)
  : option (list (list string)) :=
  match fuel with
  | O => None
  | S fuel' =>
      let '(nextCursor, rooms) := scanImpl keys cursor "Room:*" BATCH_SIZE in
      if negb (String.eqb nextCursor "0")
      then option_map (cons rooms) (scanPages fuel' keys nextCursor)
      else Some [rooms]
  end.

End Schedule.

(** The time the last command of a batch on [key] asks for, if the batch
    has a command on [key]. *)
Fixpoint lastSecs (key : string) (batch : list command) : option Z :=
  match batch with
  | [] => None
  | c :: rest =>
      match lastSecs key rest with
      | Some s => Some s
      | None => if String.eqb (target c) key then Some (seconds c) else None
      end
  end.

(** The class of a key, read off its shape: player keys start with
    [Player:]; of the room keys, only those of a quiz have more than
    three segments. *)
Definition ttlClass (key : string) : Z :=
  if String.prefix "Player:" key then TTL.PLAYER
  else if (3 <? length (split ":" key))%nat then TTL.QUIZ
  else TTL.ROOM.

(** All the commands of one refresh of a room over the keyspace [d], in
    the order they reach the store when nothing is lost. *)
Definition roomBatch (roomId : string) (d : keyspace) : list command :=
  pagePipeline [REDIS_KEY.ROOM roomId]
  ++ match fst (execMembers (REDIS_KEY.ROOM_PLAYERS roomId) d) with
     | Fulfilled ps => playerPipeline ps
     | Rejected _ => []
     end
  ++ match fst (execMembers (REDIS_KEY.ROOM_QUIZ_SET roomId) d) with
     | Fulfilled qs => quizPipeline roomId qs
     | Rejected _ => []
     end.

(** ** A small store to run the service on *)

(** Room 42 with two players and one quiz; the record of [p2] and the
    leaderboard are not in the store. *)
Definition demoDb : keyspace :=
  <["Room:42" := Entry VOther None]>
  (<["Room:42:Players" := Entry (VSet ["p1"; "p2"]) None]>
  (<["Room:42:CurrentQuiz" := Entry VOther (Some 60)]>
  (<["Room:42:QuizSet" := Entry (VSet ["q1"]) None]>
  (<["Room:42:Quiz:q1" := Entry VOther (Some 120)]>
  (<["Player:p1" := Entry VOther (Some 5)]> ∅))))).

Definition demoWorld : world := World demoDb [] [].

(** A server that pages through the keys matching [Room:*] two at a
    time, in two calls at most: cursor [0] gives the first two keys, the
    cursor it hands out gives all the others. *)
Definition demoScan (keys : gset string) (cursor pattern : string) (count : Z)
  : string * list string :=
  let matching :=
    List.filter (fun key => String.prefix "Room:" key) (elements keys) in
  if String.eqb cursor "0" then
    if (length matching <=? 2)%nat then ("0", matching)
    else ("2", firstn 2 matching)
  else ("0", skipn 2 matching).

(** The store of the first end-to-end scenario: the record of room 42,
    its player set and its quiz set, and nothing else. *)
Definition scenarioDb : keyspace :=
  <["Room:42" := Entry VOther None]>
  (<["Room:42:Players" := Entry (VSet ["p1"; "p2"]) None]>
  (<["Room:42:QuizSet" := Entry (VSet ["q1"]) None]> ∅)).

(** What [TTL key] reports: the time to live of a key that has one. *)
Definition ttlOf (d : keyspace) (key : string) : option Z :=
  match d !! key with
  | Some e => ttl e
  | None => None
  end.

(** A transport that loses nothing, and one that loses the second round
    trip it carries. *)
Definition reliable : Redis :=
  {| scanImpl := demoScan; fault := fun _ => None |}.

Definition flaky : Redis :=
  {| scanImpl := demoScan;
     fault := fun i => if (i =? 1)%nat then Some "ECONNRESET" else None |}.


(** ** Further closed forms *)

(** The three tasks of [setRoomTTL] by name, to speak of the order they
    are run in. *)
Inductive subtask : Type :=
| BaseKeys
| Players
| Quizzes.

Definition taskOf (roomId : string) (t : subtask) : prog unit :=
  match t with
  | BaseKeys => processBatch [REDIS_KEY.ROOM roomId]
  | Players => setPlayersTTL roomId
  | Quizzes => setQuizTTL roomId
  end.

(** The pipeline a task sends over the keyspace [d] when nothing is
    lost. *)
Definition taskBatch (roomId : string) (d : keyspace) (t : subtask) : list command :=
  match t with
  | BaseKeys => pagePipeline [REDIS_KEY.ROOM roomId]
  | Players =>
      match fst (execMembers (REDIS_KEY.ROOM_PLAYERS roomId) d) with
      | Fulfilled ps => playerPipeline ps
      | Rejected _ => []
      end
  | Quizzes =>
      match fst (execMembers (REDIS_KEY.ROOM_QUIZ_SET roomId) d) with
      | Fulfilled qs => quizPipeline roomId qs
      | Rejected _ => []
      end
  end.

(** The lines the [catch] of a refresher adds for a rejected round
    trip. *)
Definition failureLines (message : string) (reason : option string) : list logEntry :=
  match reason with
  | Some r => [Error message r]
  | None => []
  end.

(** A server whose cursor never comes back to the start. *)
Definition endlessScan (keys : gset string) (cursor pattern : string) (count : Z)
  : string * list string :=
  ("1", []).

Definition endless : Redis :=
  {| scanImpl := endlessScan; fault := fun _ => None |}.

(** Three rooms and nothing else, and a server that, over this static
    keyspace, hands out the first two room keys on cursor [0] and every
    room key on the cursor after it: the first two keys come twice, as the
    contract of [SCAN] allows. *)
Definition roomsDb : keyspace :=
  <["Room:1" := Entry VOther None]>
  (<["Room:2" := Entry VOther None]>
  (<["Room:3" := Entry VOther None]> ∅)).

Definition repeatingScan (keys : gset string) (cursor pattern : string) (count : Z)
  : string * list string :=
  let matching :=
    List.filter (fun key => String.prefix "Room:" key) (elements keys) in
  if String.eqb cursor "0" then ("1", firstn 2 matching)
  else ("0", matching).

Definition repeating : Redis :=
  {| scanImpl := repeatingScan; fault := fun _ => None |}.

(** How many commands of a list of pipelines are on [key]. *)
Definition commandsOn (key : string) (batches : list (list command)) : nat :=
  length (List.filter (fun c => String.eqb (target c) key) (concat batches)).

Section Sequences.

Context {redis : Redis}.

(** Running methods one after the other, each to its end. *)
Definition runSeq (ps : list (prog unit)) (w : world) : world :=
  fold_left (fun w p => snd (run p w)) ps w.

(** The lines a refresh adds to the log, in the order of the schedule:
    the reads that were rejected, then the pipelines that were lost. *)
Definition roomLog (roomId : string) (w : world) : list logEntry :=
  let n := length (trace w) in
  let players := readSet (n + 1) (REDIS_KEY.ROOM_PLAYERS roomId) (db w) in
  let quizList := readSet (n + 2) (REDIS_KEY.ROOM_QUIZ_SET roomId) (db w) in
  failureLines (playersFailed roomId) (reasonOf players)
  ++ failureLines (quizFailed roomId) (reasonOf quizList)
  ++ (if fulfilled players
      then failureLines (playersFailed roomId) (fault (n + 3))
      else [])
  ++ (if fulfilled quizList
      then failureLines (quizFailed roomId)
             (fault (n + 3 + (if fulfilled players then 1 else 0)))
      else []).

End Sequences.

(** * Properties *)

(** ** Strings *)

Lemma split_nonempty sep s : split sep s <> [].
Proof.
  destruct s as [|c s]; simpl; [discriminate|].
  destruct (Ascii.eqb c sep); [discriminate|].
  destruct (split sep s); discriminate.
Qed.

Lemma split_cons sep s : split sep s = headSegment sep s :: tl (split sep s).
Proof.
  unfold headSegment. pose proof (split_nonempty sep s) as H.
  destruct (split sep s); [congruence | reflexivity].
Qed.

Lemma split_append_sep sep a b :
  split sep (a +:+ String sep b) = split sep a ++ split sep b.
Proof.
  induction a as [|c a IH]; simpl.
  - rewrite Ascii.eqb_refl. reflexivity.
  - destruct (Ascii.eqb c sep); [now rewrite IH|].
    rewrite IH. rewrite (split_cons sep a). reflexivity.
Qed.

Lemma split_no_sep sep s : ~ hasChar sep s -> split sep s = [s].
Proof.
  unfold hasChar. induction s as [|c s IH]; simpl; intros H; [reflexivity|].
  destruct (Ascii.eqb_spec c sep) as [->|Hne]; [tauto|].
  rewrite IH; [reflexivity | tauto].
Qed.

Lemma headSegment_no_sep sep s : ~ hasChar sep (headSegment sep s).
Proof.
  unfold headSegment, hasChar. induction s as [|c s IH]; simpl; [tauto|].
  destruct (Ascii.eqb_spec c sep) as [->|Hne]; simpl; [tauto|].
  rewrite (split_cons sep s). simpl. intros [H|H]; [congruence | tauto].
Qed.

Lemma headSegment_fixed sep s : headSegment sep s = s <-> ~ hasChar sep s.
Proof.
  split.
  - intros <-. apply headSegment_no_sep.
  - intros H. unfold headSegment. now rewrite split_no_sep.
Qed.

Lemma split_length sep s : (1 <= length (split sep s))%nat.
Proof.
  pose proof (split_nonempty sep s). destruct (split sep s); [congruence|simpl; lia].
Qed.

(** The identifier [processBatch] derives from the key of room [roomId]
    is the part of [roomId] before its first colon. *)
Lemma split_ROOM roomId :
  split ":" (REDIS_KEY.ROOM roomId) !! 1%nat = Some (headSegment ":" roomId).
Proof.
  unfold REDIS_KEY.ROOM. change ("Room:" +:+ roomId) with ("Room" +:+ String ":" roomId).
  rewrite split_append_sep. simpl. now rewrite (split_cons ":" roomId).
Qed.

(** ** Pipelines *)

Lemma fold_enqueue_keys seconds keys acc :
  fold_left (fun pipeline key => pipeline ++ [Expire key seconds]) keys acc
  = acc ++ expireAll seconds keys.
Proof.
  revert acc. induction keys as [|k keys IH]; intros acc; simpl.
  - now rewrite app_nil_r.
  - rewrite IH. now rewrite <- app_assoc.
Qed.

Lemma enqueueRoom_eq pipeline roomKey :
  enqueueRoom pipeline roomKey = pipeline ++ roomCommands roomKey.
Proof.
  unfold enqueueRoom, roomCommands, roomIdOf.
  destruct (split ":" roomKey !! 1%nat) as [[|c rest]|]; simpl negb; cbv iota;
    rewrite ?fold_enqueue_keys, ?app_nil_r; reflexivity.
Qed.

Lemma fold_enqueueRoom rooms acc :
  fold_left enqueueRoom rooms acc = acc ++ pagePipeline rooms.
Proof.
  revert acc. induction rooms as [|k rooms IH]; intros acc; simpl.
  - now rewrite app_nil_r.
  - rewrite IH, enqueueRoom_eq. now rewrite <- app_assoc.
Qed.

Lemma fold_players players acc :
  fold_left (fun pipeline playerId =>
               pipeline ++ [Expire (REDIS_KEY.PLAYER playerId) TTL.PLAYER])
            players acc
  = acc ++ playerPipeline players.
Proof.
  revert acc. induction players as [|x players IH]; intros acc; simpl.
  - now rewrite app_nil_r.
  - rewrite IH. now rewrite <- app_assoc.
Qed.

Lemma fold_quizzes roomId quizList acc :
  fold_left (fun pipeline quizId =>
               (pipeline ++ [Expire (REDIS_KEY.ROOM_QUIZ roomId quizId) TTL.QUIZ])
                 ++ [Expire (REDIS_KEY.ROOM_QUIZ_CHOICES roomId quizId) TTL.QUIZ])
            quizList acc
  = acc ++ quizPipeline roomId quizList.
Proof.
  revert acc. induction quizList as [|x quizList IH]; intros acc; simpl.
  - now rewrite app_nil_r.
  - rewrite IH. now rewrite <- !app_assoc.
Qed.

(** [processBatch] is one await of one pipeline, and nothing after it. *)
Lemma processBatch_shape rooms :
  exists k,
    processBatch rooms = Await (Exec (pagePipeline rooms)) k
    /\ (forall v, k (Fulfilled v) = Ret tt)
    /\ (forall reason, k (Rejected reason) = Throw reason).
Proof.
  unfold processBatch. rewrite fold_enqueueRoom. simpl.
  eexists. split; [reflexivity|]. split; reflexivity.
Qed.

(** A refresher is a membership read, then one pipeline over the
    members; whichever of the two awaits is rejected, the [catch] logs
    and the method returns. *)
Lemma setPlayersTTL_shape roomId :
  exists k,
    setPlayersTTL roomId = Await (Smembers (REDIS_KEY.ROOM_PLAYERS roomId)) k
    /\ (forall reason,
          k (Rejected reason) = Log (Error (playersFailed roomId) reason) (Ret tt))
    /\ (forall players, exists k',
          k (Fulfilled players) = Await (Exec (playerPipeline players)) k'
          /\ (forall v, k' (Fulfilled v) = Ret tt)
          /\ (forall reason,
                k' (Rejected reason)
                = Log (Error (playersFailed roomId) reason) (Ret tt))).
Proof.
  unfold setPlayersTTL. simpl. eexists. split; [reflexivity|].
  split; [reflexivity|]. intros players. simpl.
  rewrite fold_players. simpl.
  eexists. split; [reflexivity|]. split; reflexivity.
Qed.

Lemma setQuizTTL_shape roomId :
  exists k,
    setQuizTTL roomId = Await (Smembers (REDIS_KEY.ROOM_QUIZ_SET roomId)) k
    /\ (forall reason,
          k (Rejected reason) = Log (Error (quizFailed roomId) reason) (Ret tt))
    /\ (forall quizList, exists k',
          k (Fulfilled quizList) = Await (Exec (quizPipeline roomId quizList)) k'
          /\ (forall v, k' (Fulfilled v) = Ret tt)
          /\ (forall reason,
                k' (Rejected reason)
                = Log (Error (quizFailed roomId) reason) (Ret tt))).
Proof.
  unfold setQuizTTL. simpl. eexists. split; [reflexivity|].
  split; [reflexivity|]. intros quizList. simpl.
  rewrite fold_quizzes. simpl.
  eexists. split; [reflexivity|]. split; reflexivity.
Qed.

(** ** The store *)

Lemma expire_lookup key secs d k :
  snd (expire key secs d) !! k = stepEntry k (d !! k) (Expire key secs).
Proof.
  unfold expire, stepEntry.
  destruct (String.eqb_spec key k) as [->|Hne].
  - destruct (d !! k) as [e|] eqn:E; simpl; [|now rewrite E].
    destruct (secs <=? 0); simpl.
    + apply lookup_delete_eq.
    + apply lookup_insert_eq.
  - destruct (d !! key) as [e|] eqn:E; simpl.
    + destruct (secs <=? 0); simpl.
      * rewrite lookup_delete_ne by done. now destruct (d !! k).
      * rewrite lookup_insert_ne by done. now destruct (d !! k).
    + now destruct (d !! k).
Qed.

Lemma execPipeline_lookup batch d k :
  snd (execPipeline batch d) !! k = finalEntry k batch (d !! k).
Proof.
  unfold finalEntry. revert d. induction batch as [|[key secs] batch IH]; intros d; simpl.
  - reflexivity.
  - pose proof (expire_lookup key secs d k) as H.
    destruct (expire key secs d) as [r d1]. simpl in H.
    specialize (IH d1). destruct (execPipeline batch d1) as [rs d2]. simpl in *.
    now rewrite IH, H.
Qed.

Lemma finalEntry_None k batch : finalEntry k batch None = None.
Proof.
  unfold finalEntry. induction batch as [|[key secs] batch IH]; simpl; auto.
Qed.

Lemma finalEntry_app k b1 b2 oe :
  finalEntry k (b1 ++ b2) oe = finalEntry k b2 (finalEntry k b1 oe).
Proof. unfold finalEntry. apply fold_left_app. Qed.

(** A pipeline never creates a key. *)
Lemma execPipeline_dom batch d : dom (snd (execPipeline batch d)) ⊆ dom d.
Proof.
  intros k. rewrite !elem_of_dom, execPipeline_lookup.
  destruct (d !! k) as [e|]; [eauto|].
  rewrite finalEntry_None. intros [x Hx]. discriminate.
Qed.

(** With positive times only, the keys and their values stay as they
    are: only times to live change. *)
Lemma finalEntry_value k batch e :
  Forall (fun c => 0 < seconds c) batch ->
  exists t, finalEntry k batch (Some e) = Some (Entry (value e) t).
Proof.
  unfold finalEntry. revert e. induction batch as [|[key secs] batch IH]; intros e H; simpl.
  - exists (ttl e). now destruct e.
  - inversion H as [|? ? Hpos Hrest]; subst. simpl in Hpos.
    destruct (String.eqb key k).
    + destruct (Z.leb_spec secs 0); [lia|]. apply (IH (Entry (value e) (Some secs)) Hrest).
    + now apply IH.
Qed.

Lemma execPipeline_value batch d k :
  Forall (fun c => 0 < seconds c) batch ->
  value <$> (snd (execPipeline batch d) !! k) = value <$> (d !! k).
Proof.
  intros H. rewrite execPipeline_lookup.
  destruct (d !! k) as [e|]; simpl.
  - destruct (finalEntry_value k batch e H) as [t ->]. reflexivity.
  - now rewrite finalEntry_None.
Qed.

Lemma execPipeline_dom_eq batch d :
  Forall (fun c => 0 < seconds c) batch ->
  dom (snd (execPipeline batch d)) = dom d.
Proof.
  intros H. apply set_eq. intros k. rewrite !elem_of_dom.
  pose proof (execPipeline_value batch d k H) as Hv.
  destruct (snd (execPipeline batch d) !! k), (d !! k); simpl in Hv;
    try discriminate; split; intros [x Hx]; try discriminate; eauto.
Qed.

Lemma execPipeline_app b1 b2 d :
  snd (execPipeline (b1 ++ b2) d) = snd (execPipeline b2 (snd (execPipeline b1 d))).
Proof.
  apply map_eq. intros k. now rewrite !execPipeline_lookup, finalEntry_app.
Qed.

(** With positive times, what a batch leaves of a key that exists is its
    value and the time of the last command on it. *)
Lemma finalEntry_last key batch e :
  Forall (fun c => 0 < seconds c) batch ->
  finalEntry key batch (Some e)
  = Some (Entry (value e)
                (match lastSecs key batch with
                 | Some s => Some s
                 | None => ttl e
                 end)).
Proof.
  unfold finalEntry. revert e.
  induction batch as [|[k secs] batch IH]; intros e H; simpl.
  - now destruct e.
  - inversion H as [|? ? Hpos Hrest]; subst. simpl in Hpos.
    destruct (String.eqb k key).
    + destruct (Z.leb_spec secs 0); [lia|]. rewrite IH by exact Hrest. simpl.
      now destruct (lastSecs key batch).
    + rewrite IH by exact Hrest. now destruct (lastSecs key batch).
Qed.

Lemma lastSecs_In key batch s :
  lastSecs key batch = Some s -> In (Expire key s) batch.
Proof.
  induction batch as [|[k secs] batch IH]; simpl; [discriminate|].
  destruct (lastSecs key batch) as [s'|].
  - intros [= ->]. right. now apply IH.
  - destruct (String.eqb_spec k key) as [->|]; [|discriminate].
    intros [= ->]. now left.
Qed.

Lemma In_lastSecs key batch s :
  In (Expire key s) batch -> exists s', lastSecs key batch = Some s'.
Proof.
  induction batch as [|[k secs] batch IH]; simpl; [contradiction|].
  intros [[= -> ->]|Hin].
  - destruct (lastSecs key batch); [eauto|]. rewrite String.eqb_refl. eauto.
  - destruct (IH Hin) as [s' ->]. eauto.
Qed.

(** Carrying out a batch of positive times a second time changes
    nothing. *)
Lemma execPipeline_twice batch d :
  Forall (fun c => 0 < seconds c) batch ->
  snd (execPipeline batch (snd (execPipeline batch d)))
  = snd (execPipeline batch d).
Proof.
  intros H. apply map_eq. intros k. rewrite !execPipeline_lookup.
  destruct (d !! k) as [e|]; [|now rewrite !finalEntry_None].
  rewrite !finalEntry_last by exact H. simpl.
  now destruct (lastSecs k batch).
Qed.

(** ** Round trips *)

Section Running.

Context {redis : Redis}.

Lemma roundTrip_lost rq w reason :
  fault (length (trace w)) = Some reason ->
  roundTrip rq w
  = (Rejected reason, World (db w) (trace w ++ [(rq, Some reason)]) (log w)).
Proof. intros H. unfold roundTrip. now rewrite H. Qed.

Lemma roundTrip_Exec batch w :
  fault (length (trace w)) = None ->
  roundTrip (Exec batch) w
  = (Fulfilled (fst (execPipeline batch (db w))),
     World (snd (execPipeline batch (db w))) (trace w ++ [(Exec batch, None)]) (log w)).
Proof.
  intros H. unfold roundTrip. rewrite H. simpl.
  now destruct (execPipeline batch (db w)).
Qed.

Lemma roundTrip_trace rq w :
  trace (snd (roundTrip rq w)) = trace w ++ [(rq, reasonOf (fst (roundTrip rq w)))].
Proof.
  unfold roundTrip. destruct (fault _); [reflexivity|].
  now destruct (serve rq (db w)).
Qed.

Lemma roundTrip_log rq w : log (snd (roundTrip rq w)) = log w.
Proof.
  unfold roundTrip. destruct (fault _); [reflexivity|].
  now destruct (serve rq (db w)).
Qed.

Lemma serve_dom rq d : dom (snd (serve rq d)) ⊆ dom d.
Proof.
  destruct rq as [c p n|key|batch]; simpl; [done| |].
  - unfold execMembers. destruct (d !! key) as [[[ms|] t]|]; done.
  - pose proof (execPipeline_dom batch d) as H.
    now destruct (execPipeline batch d).
Qed.

Lemma roundTrip_dom rq w : dom (db (snd (roundTrip rq w))) ⊆ dom (db w).
Proof.
  unfold roundTrip. destruct (fault _); [done|].
  pose proof (serve_dom rq (db w)) as H.
  now destruct (serve rq (db w)).
Qed.

Lemma roundTrip_Exec_inv batch w r w1 :
  roundTrip (Exec batch) w = (r, w1) ->
  trace w1 = trace w ++ [(Exec batch, fault (length (trace w)))]
  /\ log w1 = log w
  /\ db w1 = deliver (length (trace w)) batch (db w)
  /\ reasonOf r = fault (length (trace w)).
Proof.
  unfold roundTrip, deliver. destruct (fault (length (trace w))) as [reason|].
  - intros [= <- <-]. simpl. auto.
  - simpl. destruct (execPipeline batch (db w)) as [rs d]. intros [= <- <-]. simpl. auto.
Qed.

Lemma roundTrip_Smembers_inv key w r w1 :
  roundTrip (Smembers key) w = (r, w1) ->
  trace w1 = trace w ++ [(Smembers key, reasonOf r)]
  /\ log w1 = log w
  /\ db w1 = db w
  /\ r = readSet (length (trace w)) key (db w).
Proof.
  unfold roundTrip, readSet. destruct (fault (length (trace w))) as [reason|].
  - intros [= <- <-]. simpl. auto.
  - simpl. unfold execMembers.
    destruct (db w !! key) as [[[ms|] t]|]; simpl; intros [= <- <-]; simpl; auto.
Qed.

Lemma sameValues_refl d : sameValues d d.
Proof. now intros k. Qed.

Lemma sameValues_trans d1 d2 d3 :
  sameValues d1 d2 -> sameValues d2 d3 -> sameValues d1 d3.
Proof. intros H1 H2 k. now rewrite H1. Qed.

Lemma sameValues_dom d1 d2 : sameValues d1 d2 -> dom d1 = dom d2.
Proof.
  intros H. apply set_eq. intros k. rewrite !elem_of_dom. specialize (H k).
  destruct (d1 !! k), (d2 !! k); simpl in H; try discriminate;
    split; intros [x Hx]; try discriminate; eauto.
Qed.

Lemma deliver_sameValues i batch d :
  Forall (fun c => 0 < seconds c) batch ->
  sameValues (deliver i batch d) d.
Proof.
  intros H k. unfold deliver. destruct (fault i); [reflexivity|].
  now apply execPipeline_value.
Qed.

Lemma readSet_sameValues i key d1 d2 :
  sameValues d1 d2 -> readSet i key d1 = readSet i key d2.
Proof.
  intros H. unfold readSet. destruct (fault i); [reflexivity|]. simpl.
  unfold execMembers. specialize (H key).
  destruct (d1 !! key) as [[v1 t1]|], (d2 !! key) as [[v2 t2]|];
    simpl in *; try discriminate; [|reflexivity].
  injection H as ->. now destruct v2.
Qed.

Lemma positive_expireAll secs keys :
  0 < secs -> Forall (fun c => 0 < seconds c) (expireAll secs keys).
Proof.
  intros H. unfold expireAll. apply List.Forall_forall. intros c Hc.
  apply in_map_iff in Hc as (k & <- & _). exact H.
Qed.

Lemma positive_pagePipeline rooms :
  Forall (fun c => 0 < seconds c) (pagePipeline rooms).
Proof.
  unfold pagePipeline. apply List.Forall_forall. intros c Hc.
  apply in_flat_map in Hc as (k & _ & Hc). unfold roomCommands in Hc.
  destruct (roomIdOf k) as [roomId|]; [|contradiction].
  pose proof (positive_expireAll TTL.ROOM (baseKeys roomId) eq_refl) as H.
  rewrite List.Forall_forall in H. now apply H.
Qed.

Lemma positive_playerPipeline players :
  Forall (fun c => 0 < seconds c) (playerPipeline players).
Proof. now apply positive_expireAll. Qed.

Lemma positive_quizPipeline roomId quizList :
  Forall (fun c => 0 < seconds c) (quizPipeline roomId quizList).
Proof.
  unfold quizPipeline. apply List.Forall_forall. intros c Hc.
  apply in_flat_map in Hc as (q & _ & [<-|[<-|[]]]); reflexivity.
Qed.

Lemma logFailure_trace {A : Type} message (r : settled A) w :
  trace (logFailure message r w) = trace w.
Proof. now destruct r. Qed.

Lemma logFailure_db {A : Type} message (r : settled A) w :
  db (logFailure message r w) = db w.
Proof. now destruct r. Qed.

Ltac unlog :=
  repeat match goal with
    | H : context [trace (logFailure _ _ _)] |- _ => rewrite logFailure_trace in H
    | H : context [db (logFailure _ _ _)] |- _ => rewrite logFailure_db in H
    | |- context [trace (logFailure _ _ _)] => rewrite logFailure_trace
    | |- context [db (logFailure _ _ _)] => rewrite logFailure_db
    end.

(** The schedule leaves the trace and the keyspace of its closed form. *)
Lemma settleRoom_spec roomId w :
  trace (settleRoom roomId w) = trace w ++ roomTrace roomId w
  /\ db (settleRoom roomId w) = roomDb roomId w.
Proof.
  unfold settleRoom, roomTrace, roomDb.
  set (n := length (trace w)).
  destruct (roundTrip (Exec _) w) as [r1 w1] eqn:E1.
  apply roundTrip_Exec_inv in E1 as (T1 & _ & D1 & _). fold n in T1, D1.
  destruct (roundTrip (Smembers _) w1) as [players w2] eqn:E2.
  apply roundTrip_Smembers_inv in E2 as (T2 & _ & D2 & R2).
  assert (N1 : length (trace w1) = (n + 1)%nat)
    by (rewrite T1, length_app; reflexivity).
  rewrite N1 in R2.
  rewrite (readSet_sameValues _ _ (db w1) (db w)) in R2
    by (rewrite D1; apply deliver_sameValues, positive_pagePipeline).
  rewrite <- R2.
  match goal with |- context [roundTrip (Smembers ?k) ?x] =>
    destruct (roundTrip (Smembers k) x) as [quizList w3] eqn:E3 end.
  apply roundTrip_Smembers_inv in E3 as (T3 & _ & D3 & R3).
  unlog.
  assert (N2 : length (trace w2) = (n + 2)%nat)
    by (rewrite T2, length_app, N1; simpl; lia).
  rewrite N2 in R3.
  rewrite (readSet_sameValues _ _ (db w2) (db w)) in R3
    by (rewrite D2, D1; apply deliver_sameValues, positive_pagePipeline).
  rewrite <- R3.
  assert (N3 : length (trace w3) = (n + 3)%nat)
    by (rewrite T3, length_app, N2; simpl; lia).
  destruct players as [ps|e2]; cbn [fulfilled].
  - match goal with |- context [roundTrip (Exec ?b) ?x] =>
      destruct (roundTrip (Exec b) x) as [r4 w4] eqn:E4 end.
    apply roundTrip_Exec_inv in E4 as (T4 & _ & D4 & _).
    unlog. rewrite N3 in T4, D4.
    assert (N4 : length (trace w4) = (n + 3 + 1)%nat)
      by (rewrite T4, length_app, N3; simpl; lia).
    destruct quizList as [qs|e3].
    + match goal with |- context [roundTrip (Exec ?b) ?x] =>
        destruct (roundTrip (Exec b) x) as [r5 w5] eqn:E5 end.
      apply roundTrip_Exec_inv in E5 as (T5 & _ & D5 & _).
      unlog. rewrite N4 in T5, D5.
      unlog.
      rewrite T5, T4, T3, T2, T1, D5, D4, D3, D2, D1.
      rewrite <- !app_assoc. split; reflexivity.
    + unlog.
      rewrite T4, T3, T2, T1, D4, D3, D2, D1.
      rewrite <- !app_assoc. split; reflexivity.
  - destruct quizList as [qs|e3].
    + match goal with |- context [roundTrip (Exec ?b) ?x] =>
        destruct (roundTrip (Exec b) x) as [r5 w5] eqn:E5 end.
      apply roundTrip_Exec_inv in E5 as (T5 & _ & D5 & _).
      unlog. rewrite N3 in T5, D5.
      unlog. rewrite Nat.add_0_r.
      rewrite T5, T3, T2, T1, D5, D3, D2, D1.
      rewrite <- !app_assoc. split; reflexivity.
    + unlog.
      rewrite T3, T2, T1, D3, D2, D1.
      rewrite <- !app_assoc. split; reflexivity.
Qed.

(** ** The event loop of [setRoomTTL] *)

Lemma eventLoop_done {A : Type} fuel (tasks : list (task A)) w :
  eventLoop fuel tasks [] w = Some (tasks, w).
Proof. now destruct fuel. Qed.

Lemma allSettled_roomTasks fuel roomId w :
  (5 <= fuel)%nat ->
  allSettled fuel (roomTasks roomId) w
  = Some ([baseOutcome roomId w; Fulfilled tt; Fulfilled tt], settleRoom roomId w).
Proof.
  intros Hfuel.
  do 5 (destruct fuel as [|fuel]; [lia|]). clear Hfuel.
  unfold allSettled, roomTasks, settleRoom, baseOutcome.
  destruct (processBatch_shape [REDIS_KEY.ROOM roomId]) as (k1 & -> & Hk1 & Hk1').
  destruct (setPlayersTTL_shape roomId) as (k2 & -> & Hk2' & Hk2).
  destruct (setQuizTTL_shape roomId) as (k3 & -> & Hk3' & Hk3).
  cbn -[roundTrip playerPipeline quizPipeline pagePipeline].
  destruct (roundTrip (Exec (pagePipeline [REDIS_KEY.ROOM roomId])) w) as [[v1|e1] w1];
    rewrite ?Hk1, ?Hk1'; cbn -[roundTrip playerPipeline quizPipeline pagePipeline].
  all: destruct (roundTrip (Smembers (REDIS_KEY.ROOM_PLAYERS roomId)) w1) as [[ps|e2] w2];
    [destruct (Hk2 ps) as (k2' & -> & Hk2a & Hk2b) | rewrite Hk2'];
    cbn -[roundTrip playerPipeline quizPipeline pagePipeline].
  all: match goal with |- context [roundTrip (Smembers ?k) ?x] =>
         destruct (roundTrip (Smembers k) x) as [[qs|e3] w3] end;
    [destruct (Hk3 qs) as (k3' & -> & Hk3a & Hk3b) | rewrite Hk3'];
    cbn -[roundTrip playerPipeline quizPipeline pagePipeline].
  all: repeat (match goal with |- context [roundTrip (Exec ?b) ?x] =>
         destruct (roundTrip (Exec b) x) as [[?v|?e] ?w] end;
         rewrite ?Hk2a, ?Hk2b, ?Hk3a, ?Hk3b;
         cbn -[roundTrip playerPipeline quizPipeline pagePipeline]).
  all: rewrite ?eventLoop_done; reflexivity.
Qed.

Lemma setRoomTTL_settleRoom fuel roomId w :
  (5 <= fuel)%nat ->
  setRoomTTL fuel roomId w = Some (Fulfilled tt, settleRoom roomId w).
Proof.
  intros H. unfold setRoomTTL. now rewrite allSettled_roomTasks.
Qed.

Lemma roomIdOf_ROOM roomId :
  roomIdOf (REDIS_KEY.ROOM roomId)
  = match headSegment ":" roomId with
    | EmptyString => None
    | String c rest => Some (String c rest)
    end.
Proof. unfold roomIdOf. now rewrite split_ROOM. Qed.

Lemma pagePipeline_ROOM roomId :
  pagePipeline [REDIS_KEY.ROOM roomId]
  = match headSegment ":" roomId with
    | EmptyString => []
    | String c rest => expireAll TTL.ROOM (baseKeys (String c rest))
    end.
Proof.
  unfold pagePipeline, roomCommands. simpl. rewrite roomIdOf_ROOM, app_nil_r.
  now destruct (headSegment ":" roomId).
Qed.

Lemma roomTrace_rest roomId w :
  exists rest,
    roomTrace roomId w
    = [ (Exec (pagePipeline [REDIS_KEY.ROOM roomId]), fault (length (trace w)));
        (Smembers (REDIS_KEY.ROOM_PLAYERS roomId),
         reasonOf (readSet (length (trace w) + 1)
                           (REDIS_KEY.ROOM_PLAYERS roomId) (db w)));
        (Smembers (REDIS_KEY.ROOM_QUIZ_SET roomId),
         reasonOf (readSet (length (trace w) + 2)
                           (REDIS_KEY.ROOM_QUIZ_SET roomId) (db w))) ] ++ rest
    /\ (forall ps,
          readSet (length (trace w) + 1) (REDIS_KEY.ROOM_PLAYERS roomId) (db w)
          = Fulfilled ps ->
          exists r, In (Exec (playerPipeline ps), r) rest)
    /\ (forall qs,
          readSet (length (trace w) + 2) (REDIS_KEY.ROOM_QUIZ_SET roomId) (db w)
          = Fulfilled qs ->
          exists r, In (Exec (quizPipeline roomId qs), r) rest).
Proof.
  unfold roomTrace. eexists. split; [reflexivity|]. split.
  - intros ps ->. eexists. apply in_or_app. left. left. reflexivity.
  - intros qs ->. eexists. apply in_or_app. right. left. reflexivity.
Qed.

(** ** [processBatch] *)

Lemma run_processBatch rooms w :
  run (processBatch rooms) w
  = (Some (match fault (length (trace w)) with
           | Some reason => Rejected reason
           | None => Fulfilled tt
           end),
     World (deliver (length (trace w)) (pagePipeline rooms) (db w))
           (trace w ++ [(Exec (pagePipeline rooms), fault (length (trace w)))])
           (log w)).
Proof.
  destruct (processBatch_shape rooms) as (k & -> & Hk & Hk').
  cbn [run]. unfold deliver.
  destruct (fault (length (trace w))) as [reason|] eqn:F.
  - rewrite (roundTrip_lost _ _ _ F), Hk'. reflexivity.
  - rewrite (roundTrip_Exec _ _ F), Hk. reflexivity.
Qed.

(** C5.  The loop of [processBatch] queues, for each key of the page
    whose room identifier parses, [EXPIRE] with the ROOM time for the four
    base keys of that room and nothing else, and the method makes one
    round trip: the pipeline of the whole page. *)
Theorem processBatch_one_pipeline rooms w :
  fold_left enqueueRoom rooms []
  = flat_map (fun roomKey =>
                match roomIdOf roomKey with
                | Some roomId =>
                    [ Expire (REDIS_KEY.ROOM roomId) TTL.ROOM;
                      Expire (REDIS_KEY.ROOM_PLAYERS roomId) TTL.ROOM;
                      Expire (REDIS_KEY.ROOM_LEADERBOARD roomId) TTL.ROOM;
                      Expire (REDIS_KEY.ROOM_CURRENT_QUIZ roomId) TTL.ROOM ]
                | None => []
                end) rooms
  /\ trace (snd (run (processBatch rooms) w))
     = trace w ++ [(Exec (fold_left enqueueRoom rooms []), fault (length (trace w)))].
Proof.
  rewrite fold_enqueueRoom, run_processBatch. simpl. split; [|reflexivity].
  unfold pagePipeline. apply flat_map_ext. intros roomKey.
  unfold roomCommands. now destruct (roomIdOf roomKey).
Qed.

(** C9.  A key without a room identifier, such as [Room:] or [Room], is
    passed over: the page it sits in is processed as if the key were not
    there, the method is fulfilled when its round trip is not lost, and
    the base keys of every well-formed key of the page are in the
    pipeline that reaches the store. *)
Theorem processBatch_skips_malformed before bad after w :
  roomIdOf bad = None ->
  fault (length (trace w)) = None ->
  let batch := fold_left enqueueRoom (before ++ after) [] in
  roomIdOf "Room:" = None
  /\ roomIdOf "Room" = None
  /\ run (processBatch (before ++ bad :: after)) w
     = (Some (Fulfilled tt),
        World (snd (execPipeline batch (db w)))
              (trace w ++ [(Exec batch, None)])
              (log w))
  /\ (forall roomKey roomId key,
        In roomKey (before ++ after) ->
        roomIdOf roomKey = Some roomId ->
        In key (baseKeys roomId) ->
        In (Expire key TTL.ROOM) batch).
Proof.
  intros Hbad F batch. split; [reflexivity|]. split; [reflexivity|].
  assert (E : pagePipeline (before ++ bad :: after) = batch).
  { unfold batch. rewrite fold_enqueueRoom. unfold pagePipeline.
    rewrite !flat_map_app. simpl. unfold roomCommands at 2. now rewrite Hbad. }
  split.
  - rewrite run_processBatch, E. unfold deliver. now rewrite F.
  - intros roomKey roomId key Hin Hid Hkey.
    unfold batch. rewrite fold_enqueueRoom. simpl.
    apply in_flat_map. exists roomKey. split; [exact Hin|].
    unfold roomCommands. rewrite Hid. unfold expireAll.
    apply in_map_iff. now exists key.
Qed.

(** ** Running a method on its own *)

Lemma run_bind {A B : Type} (p : prog A) (f : A -> prog B) w :
  run (bind p f) w
  = match run p w with
    | (Some (Fulfilled a), w1) => run (f a) w1
    | (Some (Rejected reason), w1) => (Some (Rejected reason), w1)
    | (None, w1) => (None, w1)
    end.
Proof.
  revert w. induction p as [a|reason|l k IH|rq k IH|]; intros w; simpl; auto.
  destruct (roundTrip rq w) as [r w1]. apply IH.
Qed.

Lemma run_tryCatch {A : Type} (p : prog A) handler w :
  run (tryCatch p handler) w
  = match run p w with
    | (Some (Rejected reason), w1) => run (handler reason) w1
    | other => other
    end.
Proof.
  revert w. induction p as [a|reason|l k IH|rq k IH|]; intros w; simpl; auto.
  destruct (roundTrip rq w) as [r w1]. apply IH.
Qed.

Lemma run_scanLoop fuel cursor w :
  run (scanLoop (S fuel) cursor) w
  = let '(r, w1) := roundTrip (Scan cursor "Room:*" BATCH_SIZE) w in
    match r with
    | Rejected reason => (Some (Rejected reason), w1)
    | Fulfilled (nextCursor, rooms) =>
        let '(o, w2) :=
          if nonEmpty rooms then run (processBatch rooms) w1
          else (Some (Fulfilled tt), w1) in
        match o with
        | Some (Fulfilled _) =>
            if negb (String.eqb nextCursor "0")
            then run (scanLoop fuel nextCursor) w2
            else (Some (Fulfilled tt), w2)
        | Some (Rejected reason) => (Some (Rejected reason), w2)
        | None => (None, w2)
        end
    end.
Proof.
  cbn [scanLoop]. unfold await. cbn [bind run].
  destruct (roundTrip (Scan cursor "Room:*" BATCH_SIZE) w) as [[[nextCursor rooms]|reason] w1];
    [|reflexivity].
  cbn [bind]. rewrite run_bind. unfold nonEmpty.
  destruct (0 <? length rooms)%nat; [|cbn [run]].
  - destruct (run (processBatch rooms) w1) as [[[[]|reason]|] w2];
      try reflexivity.
    now destruct (negb (String.eqb nextCursor "0")).
  - now destruct (negb (String.eqb nextCursor "0")).
Qed.

Lemma roundTrip_Scan_inv cursor pattern count w r w1 :
  roundTrip (Scan cursor pattern count) w = (r, w1) ->
  trace w1 = trace w ++ [(Scan cursor pattern count, fault (length (trace w)))]
  /\ log w1 = log w
  /\ db w1 = db w
  /\ r = match fault (length (trace w)) with
         | Some reason => Rejected reason
         | None => Fulfilled (scanImpl (dom (db w)) cursor pattern count)
         end.
Proof.
  unfold roundTrip. destruct (fault (length (trace w))) as [reason|].
  - intros [= <- <-]. simpl. auto.
  - simpl. intros [= <- <-]. simpl. auto.
Qed.

(** ** [manageTTL] *)

Lemma unfailed_app ts1 ts2 : unfailed ts1 -> unfailed ts2 -> unfailed (ts1 ++ ts2).
Proof. unfold unfailed. intros H1 H2. apply Forall_app. now split. Qed.

(** The loop of the sweep logs nothing, only adds round trips, and the
    first round trip that is rejected is the last one it makes: its
    reason is what the loop throws. *)
Lemma scanLoop_outcome fuel cursor w :
  log (snd (run (scanLoop fuel cursor) w)) = log w
  /\ exists ts,
       trace (snd (run (scanLoop fuel cursor) w)) = trace w ++ ts
       /\ match fst (run (scanLoop fuel cursor) w) with
          | Some (Rejected reason) =>
              exists ts0 rq, ts = ts0 ++ [(rq, Some reason)] /\ unfailed ts0
          | _ => unfailed ts
          end.
Proof.
  revert cursor w. induction fuel as [|fuel IH]; intros cursor w.
  - simpl. split; [reflexivity|]. exists []. rewrite app_nil_r.
    split; [reflexivity | constructor].
  - rewrite run_scanLoop.
    destruct (roundTrip (Scan cursor "Room:*" BATCH_SIZE) w) as [r w1] eqn:E.
    apply roundTrip_Scan_inv in E as (T1 & L1 & _ & R).
    destruct (fault (length (trace w))) as [reason|] eqn:F; subst r.
    { simpl. split; [exact L1|]. eexists. split; [exact T1|].
      exists [], (Scan cursor "Room:*" BATCH_SIZE). split; [reflexivity | constructor]. }
    destruct (scanImpl (dom (db w)) cursor "Room:*" BATCH_SIZE) as [nextCursor rooms].
    assert (U1 : unfailed [(Scan cursor "Room:*" BATCH_SIZE, @None string)])
      by (repeat constructor).
    destruct (nonEmpty rooms).
    + rewrite run_processBatch.
      destruct (fault (length (trace w1))) as [reason|] eqn:F1.
      { simpl. split; [exact L1|]. eexists. split; [now rewrite T1, <- app_assoc|].
        exists [(Scan cursor "Room:*" BATCH_SIZE, None)], (Exec (pagePipeline rooms)).
        split; [reflexivity | exact U1]. }
      set (w2 := World _ _ _).
      assert (T2 : trace w2 = trace w ++ [(Scan cursor "Room:*" BATCH_SIZE, None);
                                          (Exec (pagePipeline rooms), None)])
        by (unfold w2; simpl; now rewrite T1, <- app_assoc).
      assert (U2 : unfailed [(Scan cursor "Room:*" BATCH_SIZE, @None string);
                             (Exec (pagePipeline rooms), None)])
        by (repeat constructor).
      destruct (negb (String.eqb nextCursor "0")).
      * destruct (IH nextCursor w2) as (L & ts & T & H).
        split; [rewrite L; exact L1|].
        eexists. split; [now rewrite T, T2, <- app_assoc|].
        destruct (fst (run (scanLoop fuel nextCursor) w2)) as [[[]|reason]|].
        -- now apply unfailed_app.
        -- destruct H as (ts0 & rq & -> & U). eexists _, rq.
           split; [now rewrite app_assoc|]. now apply unfailed_app.
        -- now apply unfailed_app.
      * simpl. split; [exact L1|]. eexists. split; [exact T2 | exact U2].
    + destruct (negb (String.eqb nextCursor "0")).
      * destruct (IH nextCursor w1) as (L & ts & T & H).
        split; [rewrite L; exact L1|].
        eexists. split; [now rewrite T, T1, <- app_assoc|].
        destruct (fst (run (scanLoop fuel nextCursor) w1)) as [[[]|reason]|].
        -- now apply unfailed_app.
        -- destruct H as (ts0 & rq & -> & U). eexists _, rq.
           split; [now rewrite app_assoc|]. now apply unfailed_app.
        -- now apply unfailed_app.
      * simpl. split; [exact L1|]. eexists. split; [exact T1 | exact U1].
Qed.

Lemma run_manageTTL fuel w :
  run (manageTTL fuel) w
  = match run (scanLoop fuel "0") w with
    | (Some (Fulfilled _), w1) =>
        (Some (Fulfilled tt), addLog (Verbose "TTL 관리 완료") w1)
    | (Some (Rejected reason), w1) =>
        (Some (Fulfilled tt), addLog (Error "TTL 관리 실패" reason) w1)
    | (None, w1) => (None, w1)
    end.
Proof.
  unfold manageTTL. rewrite run_tryCatch, run_bind.
  now destruct (run (scanLoop fuel "0") w) as [[[[]|reason]|] w1].
Qed.

Lemma run_trace_extends {A : Type} (p : prog A) w :
  exists ts, trace (snd (run p w)) = trace w ++ ts.
Proof.
  revert w. induction p as [a|reason|l k IH|rq k IH|]; intros w; simpl;
    try (exists []; now rewrite app_nil_r).
  - apply (IH (addLog l w)).
  - pose proof (roundTrip_trace rq w) as T.
    destruct (roundTrip rq w) as [r w1]. simpl in T.
    destruct (IH r w1) as [ts Hts]. eexists. now rewrite Hts, T, <- app_assoc.
Qed.

(** Every sweep opens with [SCAN 0], whatever the world it starts in. *)
Lemma manageTTL_first_scan fuel w :
  trace (snd (run (manageTTL (S fuel)) w)) !! length (trace w)
  = Some (Scan "0" "Room:*" BATCH_SIZE, fault (length (trace w))).
Proof.
  unfold manageTTL. cbn [scanLoop await bind tryCatch run].
  destruct (roundTrip (Scan "0" "Room:*" BATCH_SIZE) w) as [r w1] eqn:E.
  apply roundTrip_Scan_inv in E as (T1 & _).
  match goal with |- context [run ?p w1] =>
    destruct (run_trace_extends p w1) as [ts ->] end.
  rewrite T1, <- app_assoc. now apply list_lookup_middle.
Qed.

(** C3.  A sweep is never rejected.  When one of its round trips is
    rejected, be it a scan or the pipeline of a page, that round trip is
    the last one of the sweep, the sweep logs the failure with its reason
    and is fulfilled; and the next sweep, started in the world the failed
    one left, opens with [SCAN 0]. *)
Theorem manageTTL_contains_failures fuel w :
  let o := fst (run (manageTTL fuel) w) in
  let w' := snd (run (manageTTL fuel) w) in
  (forall reason, o <> Some (Rejected reason))
  /\ (forall i rq reason,
        (length (trace w) <= i)%nat ->
        trace w' !! i = Some (rq, Some reason) ->
        o = Some (Fulfilled tt)
        /\ length (trace w') = S i
        /\ log w' = log w ++ [Error "TTL 관리 실패" reason])
  /\ (forall fuel',
        trace (snd (run (manageTTL (S fuel')) w')) !! length (trace w')
        = Some (Scan "0" "Room:*" BATCH_SIZE, fault (length (trace w')))).
Proof.
  intros o w'. split; [|split].
  - intros reason. unfold o. rewrite run_manageTTL.
    now destruct (run (scanLoop fuel "0") w) as [[[[]|e]|] w1].
  - intros i rq reason Hi Hlook. unfold o, w' in *. clear o w'.
    rewrite run_manageTTL in *.
    destruct (scanLoop_outcome fuel "0" w) as (L & ts & T & H).
    destruct (run (scanLoop fuel "0") w) as [[[[]|e]|] w1];
      cbn [fst snd addLog trace log] in *.
    + rewrite T, lookup_app_r in Hlook by exact Hi.
      apply (Forall_lookup_1 _ _ _ _ H) in Hlook. discriminate.
    + destruct H as (ts0 & rq' & -> & U).
      rewrite T, lookup_app_r in Hlook by exact Hi.
      destruct (decide (i - length (trace w) < length ts0)%nat) as [Hlt|Hge].
      * rewrite lookup_app_l in Hlook by exact Hlt.
        apply (Forall_lookup_1 _ _ _ _ U) in Hlook. discriminate.
      * rewrite lookup_app_r in Hlook by lia.
        destruct (i - length (trace w) - length ts0)%nat as [|j] eqn:J;
          [|now destruct j].
        injection Hlook as <- <-.
        split; [reflexivity|]. split; [|now rewrite L].
        rewrite T, !length_app. simpl. lia.
    + rewrite T, lookup_app_r in Hlook by exact Hi.
      apply (Forall_lookup_1 _ _ _ _ H) in Hlook. discriminate.
  - intros fuel'. apply manageTTL_first_scan.
Qed.

Lemma concat_filter_nonEmpty pages :
  concat (List.filter nonEmpty pages) = concat pages.
Proof.
  induction pages as [|[|key rooms] pages IH]; simpl; [reflexivity|exact IH|].
  now rewrite IH.
Qed.

(** With no round trip lost, the loop follows the scan to its end: one
    scan per page, one pipeline per page that is not empty, and the keys
    of the store and their values are left as they were. *)
Lemma scanLoop_pages fuel cursor w pages :
  (forall i, fault i = None) ->
  scanPages fuel (dom (db w)) cursor = Some pages ->
  exists w' ts,
    run (scanLoop fuel cursor) w = (Some (Fulfilled tt), w')
    /\ trace w' = trace w ++ ts
    /\ log w' = log w
    /\ sameValues (db w') (db w)
    /\ length (scans ts) = length pages
    /\ delivered ts = map pagePipeline (List.filter nonEmpty pages).
Proof.
  intros F. revert cursor w pages.
  induction fuel as [|fuel IH]; intros cursor w pages Hpages; [discriminate|].
  cbn [scanPages] in Hpages. rewrite run_scanLoop.
  destruct (roundTrip (Scan cursor "Room:*" BATCH_SIZE) w) as [r w1] eqn:E.
  apply roundTrip_Scan_inv in E as (T1 & L1 & D1 & ->). rewrite F in *.
  destruct (scanImpl (dom (db w)) cursor "Room:*" BATCH_SIZE) as [nextCursor rooms].
  destruct (nonEmpty rooms) eqn:N.
  - rewrite run_processBatch, F. set (w2 := World _ _ _).
    assert (V2 : sameValues (db w2) (db w)).
    { unfold w2. simpl. rewrite D1. apply deliver_sameValues, positive_pagePipeline. }
    assert (T2 : trace w2 = trace w ++ [(Scan cursor "Room:*" BATCH_SIZE, None);
                                        (Exec (pagePipeline rooms), None)])
      by (unfold w2; simpl; now rewrite T1, <- app_assoc).
    destruct (negb (String.eqb nextCursor "0")).
    + destruct (scanPages fuel (dom (db w)) nextCursor) as [rest|] eqn:R;
        [|discriminate]. injection Hpages as <-.
      rewrite <- (sameValues_dom _ _ V2) in R.
      destruct (IH nextCursor w2 rest R) as (w' & ts & Hrun & T & L & V & S & Dl).
      exists w'. eexists. split; [exact Hrun|].
      split; [now rewrite T, T2, <- app_assoc|].
      split; [now rewrite L|].
      split; [eapply sameValues_trans; eassumption|].
      simpl. rewrite N. simpl. now rewrite S, Dl.
    + injection Hpages as <-. exists w2. eexists. split; [reflexivity|].
      split; [exact T2|]. split; [exact L1|]. split; [exact V2|].
      simpl. now rewrite N.
  - destruct (negb (String.eqb nextCursor "0")).
    + destruct (scanPages fuel (dom (db w)) nextCursor) as [rest|] eqn:R;
        [|discriminate]. injection Hpages as <-.
      rewrite <- D1 in R.
      destruct (IH nextCursor w1 rest R) as (w' & ts & Hrun & T & L & V & S & Dl).
      exists w'. eexists. split; [exact Hrun|].
      split; [now rewrite T, T1, <- app_assoc|].
      split; [now rewrite L|].
      split; [now rewrite <- D1|].
      simpl. rewrite N. now rewrite S, Dl.
    + injection Hpages as <-. exists w1. eexists. split; [reflexivity|].
      split; [exact T1|]. split; [exact L1|].
      split; [rewrite D1; apply sameValues_refl|].
      simpl. now rewrite N.
Qed.

(** C8, as amended.  Over a keyspace that only the sweep touches and a
    transport that loses nothing, let the scan from cursor 0 come back to 0
    after the pages [pages].  Then the sweep is fulfilled after one scan
    per page and hands every page that is not empty to [processBatch]
    once, in the order of the scan: the pipelines that reach the store
    are, page by page, the four base-key commands of every key of the page
    that has a room identifier.  So the sweep visits every key as many
    times as the scan returns it, once when the scan returns it once and
    twice when the scan returns it twice; and it leaves the set of keys as
    it found it. *)
Theorem manageTTL_visits_scanned_keys fuel w pages :
  (forall i, fault i = None) ->
  scanPages fuel (dom (db w)) "0" = Some pages ->
  let visited := List.filter nonEmpty pages in
  exists w' ts,
    run (manageTTL fuel) w = (Some (Fulfilled tt), w')
    /\ trace w' = trace w ++ ts
    /\ length (scans ts) = length pages
    /\ delivered ts
       = map (flat_map (fun roomKey =>
                          match roomIdOf roomKey with
                          | Some roomId =>
                              [ Expire (REDIS_KEY.ROOM roomId) TTL.ROOM;
                                Expire (REDIS_KEY.ROOM_PLAYERS roomId) TTL.ROOM;
                                Expire (REDIS_KEY.ROOM_LEADERBOARD roomId) TTL.ROOM;
                                Expire (REDIS_KEY.ROOM_CURRENT_QUIZ roomId) TTL.ROOM ]
                          | None => []
                          end))
             visited
    /\ concat visited = concat pages
    /\ (forall key,
          count_occ string_dec (concat visited) key
          = count_occ string_dec (concat pages) key)
    /\ dom (db w') = dom (db w).
Proof.
  intros F Hpages visited. unfold visited.
  destruct (scanLoop_pages fuel "0" w pages F Hpages)
    as (w1 & ts & Hrun & T & L & V & S & Dl).
  exists (addLog (Verbose "TTL 관리 완료") w1), ts.
  split; [now rewrite run_manageTTL, Hrun|].
  split; [exact T|]. split; [exact S|]. split.
  - rewrite Dl. apply map_ext. intros rooms. unfold pagePipeline.
    apply flat_map_ext. intros roomKey. unfold roomCommands.
    now destruct (roomIdOf roomKey).
  - split; [apply concat_filter_nonEmpty|].
    split; [intros key; now rewrite concat_filter_nonEmpty|].
    simpl. now apply sameValues_dom.
Qed.

(** ** [setRoomTTL] *)

(** C1.  Whatever the room identifier and whichever round trips are lost,
    [setRoomTTL] settles: given room for its five round trips, the event
    loop under [Promise.allSettled] ends with one outcome for each of the
    three tasks (the base task is rejected when its pipeline is lost, the
    two refreshers are fulfilled in any case), and [setRoomTTL] itself is
    fulfilled, never rejected. *)
Theorem setRoomTTL_never_rejects fuel roomId w :
  (5 <= fuel)%nat ->
  exists outcomes w',
    allSettled fuel (roomTasks roomId) w = Some (outcomes, w')
    /\ outcomes
       = [ match fault (length (trace w)) with
           | Some reason => Rejected reason
           | None => Fulfilled tt
           end;
           Fulfilled tt;
           Fulfilled tt ]
    /\ length outcomes = 3%nat
    /\ setRoomTTL fuel roomId w = Some (Fulfilled tt, w').
Proof.
  intros H. eexists. eexists.
  rewrite allSettled_roomTasks, setRoomTTL_settleRoom by exact H.
  split; [reflexivity|]. split; [|split; reflexivity].
  unfold baseOutcome.
  destruct (fault (length (trace w))) as [reason|] eqn:F.
  - now rewrite (roundTrip_lost _ _ _ F).
  - now rewrite (roundTrip_Exec _ _ F).
Qed.

(** C2.  A failure in one task of [setRoomTTL] stays in that task.
    Whichever round trips are lost, the base pipeline and both membership
    reads are sent, and each refresher sends its pipeline whenever its
    own read was answered.  In particular, when the read of the player
    set is lost and nothing else is, the base pipeline and the quiz
    pipeline are both carried out on the store. *)
Theorem setRoomTTL_isolates_failures fuel roomId w :
  (5 <= fuel)%nat ->
  let n := length (trace w) in
  let players := readSet (n + 1) (REDIS_KEY.ROOM_PLAYERS roomId) (db w) in
  let quizList := readSet (n + 2) (REDIS_KEY.ROOM_QUIZ_SET roomId) (db w) in
  exists w' rest,
    setRoomTTL fuel roomId w = Some (Fulfilled tt, w')
    /\ trace w'
       = trace w
         ++ [ (Exec (pagePipeline [REDIS_KEY.ROOM roomId]), fault n);
              (Smembers (REDIS_KEY.ROOM_PLAYERS roomId), reasonOf players);
              (Smembers (REDIS_KEY.ROOM_QUIZ_SET roomId), reasonOf quizList) ]
         ++ rest
    /\ (forall ps, players = Fulfilled ps ->
          exists r, In (Exec (playerPipeline ps), r) rest)
    /\ (forall qs, quizList = Fulfilled qs ->
          exists r, In (Exec (quizPipeline roomId qs), r) rest)
    /\ (forall reason qs,
          fault (n + 1)%nat = Some reason ->
          (forall i, i <> (n + 1)%nat -> fault i = None) ->
          quizList = Fulfilled qs ->
          In (Exec (quizPipeline roomId qs), None) rest
          /\ db w'
             = snd (execPipeline (quizPipeline roomId qs)
                     (snd (execPipeline (pagePipeline [REDIS_KEY.ROOM roomId])
                                        (db w))))).
Proof.
  intros H n players quizList.
  destruct (settleRoom_spec roomId w) as [T D].
  destruct (roomTrace_rest roomId w) as (rest & E & Hp & Hq).
  exists (settleRoom roomId w), rest.
  rewrite setRoomTTL_settleRoom by exact H.
  split; [reflexivity|]. split; [now rewrite T, E|].
  split; [exact Hp|]. split; [exact Hq|].
  intros reason qs F1 Fother Q.
  assert (P : players = Rejected reason) by (unfold players, readSet; now rewrite F1).
  split.
  - unfold roomTrace in E. fold n players quizList in E. rewrite P, Q in E.
    cbn [fulfilled app] in E. injection E as <-.
    rewrite Nat.add_0_r, Fother by lia. now left.
  - rewrite D. unfold roomDb. fold n players quizList. rewrite P, Q.
    cbn [fulfilled]. unfold deliver. now rewrite !Fother by lia.
Qed.

Lemma run_dom {A : Type} (p : prog A) w :
  dom (db (snd (run p w))) ⊆ dom (db w).
Proof.
  revert w. induction p as [a|reason|l k IH|rq k IH|]; intros w; simpl; try done.
  - apply (IH (addLog l w)).
  - pose proof (roundTrip_dom rq w) as H.
    destruct (roundTrip rq w) as [r w1]. simpl in H.
    etransitivity; [apply IH | exact H].
Qed.

Lemma roomDb_sameValues roomId w : sameValues (roomDb roomId w) (db w).
Proof.
  unfold roomDb.
  set (d1 := deliver _ (pagePipeline _) (db w)).
  assert (V1 : sameValues d1 (db w))
    by apply deliver_sameValues, positive_pagePipeline.
  set (players := readSet _ (REDIS_KEY.ROOM_PLAYERS roomId) _).
  set (d2 := match players with Fulfilled _ => _ | Rejected _ => _ end).
  assert (V2 : sameValues d2 (db w)).
  { unfold d2. destruct players as [ps|e]; [|exact V1].
    eapply sameValues_trans; [|exact V1].
    apply deliver_sameValues, positive_playerPipeline. }
  destruct (readSet _ (REDIS_KEY.ROOM_QUIZ_SET roomId) _) as [qs|e]; [|exact V2].
  eapply sameValues_trans; [|exact V2].
  apply deliver_sameValues, positive_quizPipeline.
Qed.

Lemma execPipeline_absent batch d :
  Forall (fun c => d !! target c = None) batch ->
  execPipeline batch d = (map (fun _ => 0) batch, d).
Proof.
  induction batch as [|[key secs] batch IH]; intros H; [reflexivity|].
  inversion H as [|? ? Hkey Hrest]; subst. simpl in *.
  unfold expire. rewrite Hkey. now rewrite (IH Hrest).
Qed.

Lemma readSet_absent i key d :
  fault i = None -> d !! key = None -> readSet i key d = Fulfilled [].
Proof. intros F H. unfold readSet. rewrite F. simpl. unfold execMembers. now rewrite H. Qed.

(** C7.  Neither the sweep nor the refresh of a room creates a key:
    [EXPIRE] on a key that is not there answers 0 and changes nothing, a
    sweep leaves no key that was not there before, and a refresh leaves
    the keys and their values as they were, whatever is lost on the way.
    When nothing is lost and none of the keys the refresh of [roomId]
    names exists, the three tasks are fulfilled, no round trip is
    rejected and the store is left unchanged. *)
Theorem refresh_never_creates_keys fuel roomId w :
  (5 <= fuel)%nat ->
  (forall key secs d, d !! key = None -> expire key secs d = (0, d))
  /\ (forall fuel' w0, dom (db (snd (run (manageTTL fuel') w0))) ⊆ dom (db w0))
  /\ (exists w',
        setRoomTTL fuel roomId w = Some (Fulfilled tt, w')
        /\ dom (db w') = dom (db w)
        /\ sameValues (db w') (db w))
  /\ ((forall i, fault i = None) ->
      Forall (fun key => db w !! key = None)
             (baseKeys (headSegment ":" roomId)
              ++ [REDIS_KEY.ROOM_PLAYERS roomId; REDIS_KEY.ROOM_QUIZ_SET roomId]) ->
      exists w' ts,
        allSettled fuel (roomTasks roomId) w
        = Some ([Fulfilled tt; Fulfilled tt; Fulfilled tt], w')
        /\ trace w' = trace w ++ ts
        /\ unfailed ts
        /\ db w' = db w).
Proof.
  intros Hfuel. split; [|split; [|split]].
  - intros key secs d H. unfold expire. now rewrite H.
  - intros fuel' w0. apply run_dom.
  - exists (settleRoom roomId w). rewrite setRoomTTL_settleRoom by exact Hfuel.
    destruct (settleRoom_spec roomId w) as [_ D].
    split; [reflexivity|]. rewrite D.
    split; [apply sameValues_dom|]; apply roomDb_sameValues.
  - intros F Habsent.
    apply Forall_app in Habsent as [Hbase Hsets].
    inversion Hsets as [|? ? Hplayers Hsets']; subst.
    inversion Hsets' as [|? ? Hquiz _]; subst.
    destruct (settleRoom_spec roomId w) as [T D].
    exists (settleRoom roomId w), (roomTrace roomId w).
    rewrite allSettled_roomTasks by exact Hfuel.
    assert (Ebase : execPipeline (pagePipeline [REDIS_KEY.ROOM roomId]) (db w)
                    = (map (fun _ => 0) (pagePipeline [REDIS_KEY.ROOM roomId]), db w)).
    { apply execPipeline_absent. rewrite pagePipeline_ROOM.
      destruct (headSegment ":" roomId) as [|c rest]; [constructor|].
      unfold expireAll. apply List.Forall_forall. intros cmd Hin.
      apply in_map_iff in Hin as (key & <- & Hin). simpl.
      rewrite List.Forall_forall in Hbase. now apply Hbase. }
    split; [|split; [exact T|split]].
    + unfold baseOutcome. now rewrite (roundTrip_Exec _ _ (F _)).
    + unfold roomTrace, unfailed.
      rewrite !readSet_absent by auto. simpl. rewrite !F. repeat constructor.
    + rewrite D. unfold roomDb. rewrite !readSet_absent by auto.
      unfold deliver. rewrite !F. now rewrite Ebase.
Qed.

Lemma readSet_members i key d members t :
  fault i = None ->
  d !! key = Some (Entry (VSet members) t) ->
  readSet i key d = Fulfilled members.
Proof. intros F H. unfold readSet. rewrite F. simpl. unfold execMembers. now rewrite H. Qed.

(** C4, as amended.  The store holds the player set [Room:42:Players]
    with members [p1] and [p2] and the quiz set [Room:42:QuizSet] with
    member [q1], and nothing is lost.  Then [setRoomTTL "42"] sends the
    four base keys of room 42 with the ROOM time, the keys of the players
    [p1] and [p2] with the PLAYER time and the two keys of quiz [q1] with
    the QUIZ time, and no other command; each of these keys that the
    store holds ends with the time of its class, a key that the store
    does not hold is not created, and every other key is left as it
    was. *)
Theorem setRoomTTL_room_42 fuel w t1 t2 :
  (5 <= fuel)%nat ->
  (forall i, fault i = None) ->
  db w !! "Room:42:Players" = Some (Entry (VSet ["p1"; "p2"]) t1) ->
  db w !! "Room:42:QuizSet" = Some (Entry (VSet ["q1"]) t2) ->
  exists w',
    setRoomTTL fuel "42" w = Some (Fulfilled tt, w')
    /\ trace w'
       = trace w
         ++ [ (Exec [ Expire "Room:42" TTL.ROOM;
                      Expire "Room:42:Players" TTL.ROOM;
                      Expire "Room:42:Leaderboard" TTL.ROOM;
                      Expire "Room:42:CurrentQuiz" TTL.ROOM ], None);
              (Smembers "Room:42:Players", None);
              (Smembers "Room:42:QuizSet", None);
              (Exec [ Expire "Player:p1" TTL.PLAYER;
                      Expire "Player:p2" TTL.PLAYER ], None);
              (Exec [ Expire "Room:42:Quiz:q1" TTL.QUIZ;
                      Expire "Room:42:Quiz:q1:Choices" TTL.QUIZ ], None) ]
    /\ (forall key e,
          In key ["Room:42"; "Room:42:Players"; "Room:42:Leaderboard";
                  "Room:42:CurrentQuiz"] ->
          db w !! key = Some e ->
          db w' !! key = Some (Entry (value e) (Some TTL.ROOM)))
    /\ (forall key e,
          In key ["Player:p1"; "Player:p2"] ->
          db w !! key = Some e ->
          db w' !! key = Some (Entry (value e) (Some TTL.PLAYER)))
    /\ (forall key e,
          In key ["Room:42:Quiz:q1"; "Room:42:Quiz:q1:Choices"] ->
          db w !! key = Some e ->
          db w' !! key = Some (Entry (value e) (Some TTL.QUIZ)))
    /\ (forall key, db w !! key = None -> db w' !! key = None)
    /\ (forall key,
          ~ In key ["Room:42"; "Room:42:Players"; "Room:42:Leaderboard";
                    "Room:42:CurrentQuiz"; "Player:p1"; "Player:p2";
                    "Room:42:Quiz:q1"; "Room:42:Quiz:q1:Choices"] ->
          db w' !! key = db w !! key).
Proof.
  intros Hfuel F Hplayers Hquiz.
  exists (settleRoom "42" w). rewrite setRoomTTL_settleRoom by exact Hfuel.
  destruct (settleRoom_spec "42" w) as [T D].
  assert (P : forall i, readSet i (REDIS_KEY.ROOM_PLAYERS "42") (db w)
                        = Fulfilled ["p1"; "p2"])
    by (intros i; now apply readSet_members with t1).
  assert (Q : forall i, readSet i (REDIS_KEY.ROOM_QUIZ_SET "42") (db w)
                        = Fulfilled ["q1"])
    by (intros i; now apply readSet_members with t2).
  assert (Hdb : forall key,
            db (settleRoom "42" w) !! key
            = finalEntry key
                (pagePipeline [REDIS_KEY.ROOM "42"] ++ playerPipeline ["p1"; "p2"]
                 ++ quizPipeline "42" ["q1"])
                (db w !! key)).
  { intros key. rewrite D. unfold roomDb. rewrite P, Q. unfold deliver.
    rewrite !F. rewrite !execPipeline_lookup, !finalEntry_app. reflexivity. }
  change (pagePipeline [REDIS_KEY.ROOM "42"] ++ playerPipeline ["p1"; "p2"]
          ++ quizPipeline "42" ["q1"])
    with [ Expire "Room:42" TTL.ROOM; Expire "Room:42:Players" TTL.ROOM;
           Expire "Room:42:Leaderboard" TTL.ROOM;
           Expire "Room:42:CurrentQuiz" TTL.ROOM;
           Expire "Player:p1" TTL.PLAYER; Expire "Player:p2" TTL.PLAYER;
           Expire "Room:42:Quiz:q1" TTL.QUIZ;
           Expire "Room:42:Quiz:q1:Choices" TTL.QUIZ ] in Hdb.
  split; [reflexivity|]. split.
  { rewrite T. unfold roomTrace. rewrite P, Q. simpl. rewrite !F. reflexivity. }
  split; [|split; [|split; [|split]]].
  - intros key e Hin He. rewrite Hdb, He.
    simpl in Hin. decompose [or] Hin; subst; try contradiction; reflexivity.
  - intros key e Hin He. rewrite Hdb, He.
    simpl in Hin. decompose [or] Hin; subst; try contradiction; reflexivity.
  - intros key e Hin He. rewrite Hdb, He.
    simpl in Hin. decompose [or] Hin; subst; try contradiction; reflexivity.
  - intros key Hnone. rewrite Hdb, Hnone. apply finalEntry_None.
  - intros key Hnot. rewrite Hdb.
    destruct (db w !! key) as [e|]; [|apply finalEntry_None].
    unfold finalEntry. cbn [fold_left stepEntry].
    repeat match goal with
      | |- context [String.eqb ?k key] =>
          destruct (String.eqb_spec k key) as [<-|_];
          [exfalso; apply Hnot; simpl; tauto|]
      end.
    reflexivity.
Qed.

(** *** Refreshing twice *)

Lemma ttlClass_base roomId key :
  ~ hasChar ":" roomId -> In key (baseKeys roomId) -> ttlClass key = TTL.ROOM.
Proof.
  intros Hno Hin. unfold ttlClass.
  assert (L : (length (split ":" key) <= 3)%nat).
  { simpl in Hin. destruct Hin as [<-|[<-|[<-|[<-|[]]]]].
    - unfold REDIS_KEY.ROOM.
      change ("Room:" +:+ roomId) with ("Room" +:+ String ":" roomId).
      rewrite split_append_sep, (split_no_sep _ _ Hno). simpl. lia.
    - unfold REDIS_KEY.ROOM_PLAYERS.
      change ("Room:" +:+ roomId +:+ ":Players")
        with ("Room" +:+ String ":" (roomId +:+ String ":" "Players")).
      rewrite !split_append_sep, (split_no_sep _ _ Hno). simpl. lia.
    - unfold REDIS_KEY.ROOM_LEADERBOARD.
      change ("Room:" +:+ roomId +:+ ":Leaderboard")
        with ("Room" +:+ String ":" (roomId +:+ String ":" "Leaderboard")).
      rewrite !split_append_sep, (split_no_sep _ _ Hno). simpl. lia.
    - unfold REDIS_KEY.ROOM_CURRENT_QUIZ.
      change ("Room:" +:+ roomId +:+ ":CurrentQuiz")
        with ("Room" +:+ String ":" (roomId +:+ String ":" "CurrentQuiz")).
      rewrite !split_append_sep, (split_no_sep _ _ Hno). simpl. lia. }
  assert (P : String.prefix "Player:" key = false)
    by (simpl in Hin; destruct Hin as [<-|[<-|[<-|[<-|[]]]]]; reflexivity).
  rewrite P. destruct (Nat.ltb_spec 3 (length (split ":" key))); [lia|reflexivity].
Qed.

Lemma ttlClass_player playerId : ttlClass (REDIS_KEY.PLAYER playerId) = TTL.PLAYER.
Proof.
  unfold ttlClass, REDIS_KEY.PLAYER. simpl. now destruct playerId.
Qed.

Lemma ttlClass_quiz roomId rest :
  ttlClass ("Room:" +:+ roomId +:+ ":Quiz:" +:+ rest) = TTL.QUIZ.
Proof.
  unfold ttlClass.
  change ("Room:" +:+ roomId +:+ ":Quiz:" +:+ rest)
    with ("Room" +:+ String ":" (roomId +:+ String ":" ("Quiz" +:+ String ":" rest))).
  rewrite !split_append_sep, !length_app.
  pose proof (split_length ":" roomId). pose proof (split_length ":" rest).
  cbn [split length Ascii.eqb Bool.eqb String.prefix app].
  match goal with |- context [(3 <? ?n)%nat] =>
    destruct (Nat.ltb_spec 3 n); [reflexivity | simpl in *; lia] end.
Qed.

(** Every command of a refresh asks for the time of the class of its
    key, so two commands on one key ask for the same time. *)
Lemma roomBatch_class roomId d c :
  In c (roomBatch roomId d) -> seconds c = ttlClass (target c).
Proof.
  unfold roomBatch. rewrite !in_app_iff. intros [H|[H|H]].
  - rewrite pagePipeline_ROOM in H.
    pose proof (headSegment_no_sep ":" roomId) as Hno.
    destruct (headSegment ":" roomId) as [|ch rest]; [contradiction|].
    apply in_map_iff in H as (key & <- & Hin). simpl.
    symmetry. now apply ttlClass_base with (String ch rest).
  - destruct (fst (execMembers _ d)) as [ps|]; [|contradiction].
    apply in_map_iff in H as (key & <- & Hin).
    apply in_map_iff in Hin as (p & <- & _). simpl.
    symmetry. apply ttlClass_player.
  - destruct (fst (execMembers (REDIS_KEY.ROOM_QUIZ_SET roomId) d)) as [qs|];
      [|contradiction].
    apply in_flat_map in H as (q & _ & [<-|[<-|[]]]); simpl; symmetry.
    + apply ttlClass_quiz.
    + apply (ttlClass_quiz roomId (q +:+ ":Choices")).
Qed.

Lemma positive_roomBatch roomId d :
  Forall (fun c => 0 < seconds c) (roomBatch roomId d).
Proof.
  unfold roomBatch. apply Forall_app. split; [apply positive_pagePipeline|].
  apply Forall_app. split.
  - destruct (fst (execMembers _ d)); [apply positive_playerPipeline|constructor].
  - destruct (fst (execMembers _ d)); [apply positive_quizPipeline|constructor].
Qed.

Lemma roomBatch_sameValues roomId d1 d2 :
  sameValues d1 d2 -> roomBatch roomId d1 = roomBatch roomId d2.
Proof.
  intros V. unfold roomBatch.
  assert (E : forall key, fst (execMembers key d1) = fst (execMembers key d2)).
  { intros key. unfold execMembers. specialize (V key).
    destruct (d1 !! key) as [[v1 t1]|], (d2 !! key) as [[v2 t2]|];
      simpl in *; try discriminate; [|reflexivity].
    injection V as ->. now destruct v2. }
  now rewrite !E.
Qed.

(** With nothing lost, a refresh carries out [roomBatch] and sends
    nothing that is not in it. *)
Lemma settleRoom_nofault roomId w :
  (forall i, fault i = None) ->
  db (settleRoom roomId w) = snd (execPipeline (roomBatch roomId (db w)) (db w))
  /\ exists ts,
       trace (settleRoom roomId w) = trace w ++ ts
       /\ forall batch r c, In (Exec batch, r) ts -> In c batch ->
                           In c (roomBatch roomId (db w)).
Proof.
  intros F. destruct (settleRoom_spec roomId w) as [T D].
  assert (R : forall i key, readSet i key (db w) = fst (execMembers key (db w)))
    by (intros i key; unfold readSet; now rewrite F).
  split.
  - rewrite D. unfold roomDb, roomBatch. rewrite !R. unfold deliver. rewrite F.
    rewrite !execPipeline_app.
    destruct (fst (execMembers (REDIS_KEY.ROOM_PLAYERS roomId) (db w))) as [ps|e2],
             (fst (execMembers (REDIS_KEY.ROOM_QUIZ_SET roomId) (db w))) as [qs|e3];
      rewrite ?F; reflexivity.
  - exists (roomTrace roomId w). split; [exact T|].
    intros batch r c Hin Hc. unfold roomTrace in Hin. rewrite !R in Hin.
    unfold roomBatch. rewrite !in_app_iff.
    simpl in Hin.
    destruct Hin as [[= <- _]|[[=]|[[=]|Hin]]]; [now left|].
    apply in_app_or in Hin as [Hin|Hin].
    + destruct (fst (execMembers (REDIS_KEY.ROOM_PLAYERS roomId) (db w))) as [ps|e2];
        [|contradiction].
      destruct Hin as [[= <- _]|[]]. right. now left.
    + destruct (fst (execMembers (REDIS_KEY.ROOM_QUIZ_SET roomId) (db w))) as [qs|e3];
        [|contradiction].
      destruct Hin as [[= <- _]|[]]. right. now right.
Qed.

(** With nothing lost, every key that a command of the refresh names and
    that the store holds ends with the time of that command. *)
Lemma settleRoom_sets_time roomId w key secs e :
  (forall i, fault i = None) ->
  In (Expire key secs) (roomBatch roomId (db w)) ->
  db w !! key = Some e ->
  db (settleRoom roomId w) !! key = Some (Entry (value e) (Some secs)).
Proof.
  intros F Hin He. destruct (settleRoom_nofault roomId w F) as [-> _].
  rewrite execPipeline_lookup, He, finalEntry_last by apply positive_roomBatch.
  destruct (In_lastSecs _ _ _ Hin) as [s Hs]. rewrite Hs.
  apply lastSecs_In in Hs. apply roomBatch_class in Hs, Hin. simpl in *.
  congruence.
Qed.

(** C6.  With nothing lost, refreshing a room a second time leaves the
    store exactly as the first refresh left it, and after the second
    refresh every key the refresh is for and that the store holds has the
    time of its class, neither doubled nor summed: the four base keys of
    the room have the ROOM time, 10800 seconds; the record of every
    member of the player set has the PLAYER time, 7200 seconds; the
    record and the choices of every member of the quiz set have the QUIZ
    time, 3600 seconds; whatever time these keys had before.  The same
    holds of every command of the second refresh: the key it names ends
    with the time it asks for. *)
Theorem setRoomTTL_idempotent fuel roomId w :
  (5 <= fuel)%nat ->
  (forall i, fault i = None) ->
  exists w1 w2 ts,
    setRoomTTL fuel roomId w = Some (Fulfilled tt, w1)
    /\ setRoomTTL fuel roomId w1 = Some (Fulfilled tt, w2)
    /\ db w2 = db w1
    /\ trace w2 = trace w1 ++ ts
    /\ (forall batch r key secs e,
          In (Exec batch, r) ts ->
          In (Expire key secs) batch ->
          db w2 !! key = Some e ->
          ttl e = Some secs)
    /\ TTL.ROOM = 10800 /\ TTL.PLAYER = 7200 /\ TTL.QUIZ = 3600
    /\ forall key e,
         db w !! key = Some e ->
         (headSegment ":" roomId <> EmptyString ->
          In key (baseKeys (headSegment ":" roomId)) ->
          db w2 !! key = Some (Entry (value e) (Some TTL.ROOM)))
         /\ (forall players t playerId,
               db w !! REDIS_KEY.ROOM_PLAYERS roomId = Some (Entry (VSet players) t) ->
               In playerId players ->
               key = REDIS_KEY.PLAYER playerId ->
               db w2 !! key = Some (Entry (value e) (Some TTL.PLAYER)))
         /\ (forall quizList t quizId,
               db w !! REDIS_KEY.ROOM_QUIZ_SET roomId = Some (Entry (VSet quizList) t) ->
               In quizId quizList ->
               key = REDIS_KEY.ROOM_QUIZ roomId quizId
               \/ key = REDIS_KEY.ROOM_QUIZ_CHOICES roomId quizId ->
               db w2 !! key = Some (Entry (value e) (Some TTL.QUIZ))).
Proof.
  intros Hfuel F.
  set (w1 := settleRoom roomId w). set (w2 := settleRoom roomId w1).
  destruct (settleRoom_nofault roomId w F) as [D1 _].
  destruct (settleRoom_nofault roomId w1 F) as (D2 & ts & T2 & Hts).
  fold w1 in D1. fold w2 in D2, T2.
  assert (V1 : sameValues (db w1) (db w)).
  { rewrite D1. intros k. apply execPipeline_value, positive_roomBatch. }
  rewrite (roomBatch_sameValues _ _ _ V1) in D2, Hts.
  assert (E : db w2 = db w1).
  { rewrite D2, D1. apply execPipeline_twice, positive_roomBatch. }
  exists w1, w2, ts. rewrite !setRoomTTL_settleRoom by exact Hfuel.
  split; [reflexivity|]. split; [reflexivity|]. split; [exact E|].
  split; [exact T2|]. split.
  { intros batch r key secs e Hin Hc He.
    specialize (Hts batch r _ Hin Hc).
    rewrite E, D1, execPipeline_lookup in He.
    destruct (db w !! key) as [e0|]; [|now rewrite finalEntry_None in He].
    rewrite finalEntry_last in He by apply positive_roomBatch.
    destruct (In_lastSecs _ _ _ Hts) as [s' Hs']. rewrite Hs' in He.
    injection He as <-. simpl. f_equal.
    apply lastSecs_In in Hs'.
    apply roomBatch_class in Hs', Hts. simpl in *. congruence. }
  split; [reflexivity|]. split; [reflexivity|]. split; [reflexivity|].
  intros key e He. rewrite E. unfold w1. split; [|split].
  - intros Hne Hin. apply settleRoom_sets_time; [exact F| |exact He].
    unfold roomBatch. apply in_or_app. left. rewrite pagePipeline_ROOM.
    destruct (headSegment ":" roomId) as [|c rest]; [congruence|].
    apply in_map_iff. now exists key.
  - intros players t playerId Hset Hin ->.
    apply settleRoom_sets_time; [exact F| |exact He].
    unfold roomBatch, execMembers. rewrite Hset. cbn [value fst].
    apply in_or_app. right. apply in_or_app. left.
    apply in_map_iff. exists (REDIS_KEY.PLAYER playerId). split; [reflexivity|].
    apply in_map_iff. now exists playerId.
  - intros quizList t quizId Hset Hin Hkey.
    apply settleRoom_sets_time; [exact F| |exact He].
    unfold roomBatch, execMembers. rewrite Hset. cbn [value fst].
    apply in_or_app. right. apply in_or_app. right.
    apply in_flat_map. exists quizId. split; [exact Hin|].
    destruct Hkey as [->| ->]; simpl; auto.
Qed.

(** C10.  The base task of [setRoomTTL] reads the room identifier back
    off the key [Room:{roomId}]: it finds the part of [roomId] before its
    first colon, which is [roomId] itself exactly when [roomId] has no
    colon.  Its pipeline holds the four base keys of that part, and no
    command at all when that part is empty, as for the empty [roomId];
    the membership reads of the two refreshers are sent all the same. *)
Theorem setRoomTTL_base_identifier fuel roomId w :
  (5 <= fuel)%nat ->
  let derived := headSegment ":" roomId in
  let batch := fold_left enqueueRoom [REDIS_KEY.ROOM roomId] [] in
  split ":" (REDIS_KEY.ROOM roomId) !! 1%nat = Some derived
  /\ (derived = roomId <-> ~ hasChar ":" roomId)
  /\ batch = match derived with
             | EmptyString => []
             | String _ _ =>
                 [ Expire (REDIS_KEY.ROOM derived) TTL.ROOM;
                   Expire (REDIS_KEY.ROOM_PLAYERS derived) TTL.ROOM;
                   Expire (REDIS_KEY.ROOM_LEADERBOARD derived) TTL.ROOM;
                   Expire (REDIS_KEY.ROOM_CURRENT_QUIZ derived) TTL.ROOM ]
             end
  /\ (roomId = EmptyString -> batch = [])
  /\ exists w' r2 r3 rest,
       setRoomTTL fuel roomId w = Some (Fulfilled tt, w')
       /\ trace w'
          = trace w
            ++ [ (Exec batch, fault (length (trace w)));
                 (Smembers (REDIS_KEY.ROOM_PLAYERS roomId), r2);
                 (Smembers (REDIS_KEY.ROOM_QUIZ_SET roomId), r3) ]
            ++ rest.
Proof.
  intros H derived batch.
  assert (E : batch = pagePipeline [REDIS_KEY.ROOM roomId])
    by (unfold batch; now rewrite fold_enqueueRoom).
  split; [apply split_ROOM|]. split; [apply headSegment_fixed|].
  split; [|split].
  - rewrite E, pagePipeline_ROOM. fold derived. now destruct derived.
  - intros ->. reflexivity.
  - destruct (settleRoom_spec roomId w) as [T _].
    destruct (roomTrace_rest roomId w) as (rest & R & _).
    exists (settleRoom roomId w). do 2 eexists. exists rest.
    rewrite setRoomTTL_settleRoom by exact H. split; [reflexivity|].
    rewrite T, R, E. reflexivity.
Qed.

(** ** The refreshers on their own *)

Lemma roundTrip_Exec_full batch w :
  roundTrip (Exec batch) w
  = (match fault (length (trace w)) with
     | Some reason => Rejected reason
     | None => Fulfilled (fst (execPipeline batch (db w)))
     end,
     World (deliver (length (trace w)) batch (db w))
           (trace w ++ [(Exec batch, fault (length (trace w)))])
           (log w)).
Proof.
  unfold deliver. destruct (fault (length (trace w))) as [reason|] eqn:F.
  - now rewrite (roundTrip_lost _ _ _ F).
  - now rewrite (roundTrip_Exec _ _ F).
Qed.

Lemma roundTrip_Smembers_full key w :
  roundTrip (Smembers key) w
  = (readSet (length (trace w)) key (db w),
     World (db w)
           (trace w ++ [(Smembers key,
                         reasonOf (readSet (length (trace w)) key (db w)))])
           (log w)).
Proof.
  destruct (roundTrip (Smembers key) w) as [r w1] eqn:E.
  apply roundTrip_Smembers_inv in E as (T & L & D & ->).
  destruct w1 as [d1 t1 l1]. simpl in *. now subst.
Qed.

(** What a refresher leaves, in closed form: one read; when it is
    answered, one pipeline; and one line in the log when either of the two
    is rejected. *)
Lemma run_setPlayersTTL roomId w :
  run (setPlayersTTL roomId) w
  = let n := length (trace w) in
    let key := REDIS_KEY.ROOM_PLAYERS roomId in
    match readSet n key (db w) with
    | Fulfilled players =>
        (Some (Fulfilled tt),
         World (deliver (n + 1) (playerPipeline players) (db w))
               (trace w ++ [(Smembers key, None);
                            (Exec (playerPipeline players), fault (n + 1)%nat)])
               (log w ++ failureLines (playersFailed roomId) (fault (n + 1)%nat)))
    | Rejected reason =>
        (Some (Fulfilled tt),
         World (db w) (trace w ++ [(Smembers key, Some reason)])
               (log w ++ [Error (playersFailed roomId) reason]))
    end.
Proof.
  destruct (setPlayersTTL_shape roomId) as (k & -> & Hk' & Hk).
  cbn [run]. rewrite roundTrip_Smembers_full. cbv beta iota zeta.
  cbn [reply] in *.
  destruct (readSet _ _ (db w)) as [players|reason].
  - destruct (Hk players) as (k' & -> & Ha & Hb). cbn [run reasonOf].
    rewrite roundTrip_Exec_full. cbv beta iota zeta. cbn [trace db log].
    rewrite length_app. cbn [length].
    destruct (fault (length (trace w) + 1)) as [reason|].
    + rewrite Hb. cbn. now rewrite <- app_assoc.
    + rewrite Ha. cbn. now rewrite <- app_assoc, app_nil_r.
  - rewrite Hk'. reflexivity.
Qed.

Lemma run_setQuizTTL roomId w :
  run (setQuizTTL roomId) w
  = let n := length (trace w) in
    let key := REDIS_KEY.ROOM_QUIZ_SET roomId in
    match readSet n key (db w) with
    | Fulfilled quizList =>
        (Some (Fulfilled tt),
         World (deliver (n + 1) (quizPipeline roomId quizList) (db w))
               (trace w ++ [(Smembers key, None);
                            (Exec (quizPipeline roomId quizList), fault (n + 1)%nat)])
               (log w ++ failureLines (quizFailed roomId) (fault (n + 1)%nat)))
    | Rejected reason =>
        (Some (Fulfilled tt),
         World (db w) (trace w ++ [(Smembers key, Some reason)])
               (log w ++ [Error (quizFailed roomId) reason]))
    end.
Proof.
  destruct (setQuizTTL_shape roomId) as (k & -> & Hk' & Hk).
  cbn [run]. rewrite roundTrip_Smembers_full. cbv beta iota zeta.
  cbn [reply] in *.
  destruct (readSet _ _ (db w)) as [quizList|reason].
  - destruct (Hk quizList) as (k' & -> & Ha & Hb). cbn [run reasonOf].
    rewrite roundTrip_Exec_full. cbv beta iota zeta. cbn [trace db log].
    rewrite length_app. cbn [length].
    destruct (fault (length (trace w) + 1)) as [reason|].
    + rewrite Hb. cbn. now rewrite <- app_assoc.
    + rewrite Ha. cbn. now rewrite <- app_assoc, app_nil_r.
  - rewrite Hk'. reflexivity.
Qed.

(** X1.  Run on its own, [setPlayersTTL] is fulfilled whatever happens.
    It reads the player set of the room first and makes at most one more
    round trip, a pipeline; when no round trip is rejected it logs
    nothing, and when one is rejected, that one is its last and the only
    line it logs is the failure for this room with the reason of the
    rejection. *)
Theorem setPlayersTTL_catches roomId w :
  let w' := snd (run (setPlayersTTL roomId) w) in
  fst (run (setPlayersTTL roomId) w) = Some (Fulfilled tt)
  /\ exists r ts,
       trace w' = trace w ++ (Smembers (REDIS_KEY.ROOM_PLAYERS roomId), r) :: ts
       /\ (length ts <= 1)%nat
       /\ (unfailed ((Smembers (REDIS_KEY.ROOM_PLAYERS roomId), r) :: ts) ->
           log w' = log w)
       /\ (forall rq reason,
             In (rq, Some reason)
                ((Smembers (REDIS_KEY.ROOM_PLAYERS roomId), r) :: ts) ->
             log w' = log w ++ [Error (playersFailed roomId) reason]
             /\ last ((Smembers (REDIS_KEY.ROOM_PLAYERS roomId), r) :: ts)
                = Some (rq, Some reason)).
Proof.
  intros w'. unfold w'. clear w'. rewrite run_setPlayersTTL. cbn zeta.
  destruct (readSet _ _ (db w)) as [players|reason]; cbn [fst snd trace log].
  - split; [reflexivity|]. eexists _, [_]. split; [reflexivity|].
    split; [simpl; lia|]. split.
    + intros U. inversion U as [|? ? _ U']; subst.
      inversion U' as [|? ? F _]; subst. simpl in F. rewrite F. simpl.
      now rewrite app_nil_r.
    + intros rq reason [[=]|[[= <- F]|[]]]. rewrite F. simpl. now split.
  - split; [reflexivity|]. eexists _, []. split; [reflexivity|].
    split; [simpl; lia|]. split.
    + intros U. inversion U as [|? ? F _]; subst. discriminate.
    + intros rq reason' [[= <- <-]|[]]. now split.
Qed.

(** X2.  Run on its own, [setQuizTTL] is fulfilled whatever happens.  It
    reads the quiz set of the room first and makes at most one more round
    trip, a pipeline; when no round trip is rejected it logs nothing, and
    when one is rejected, that one is its last and the only line it logs
    is the failure for this room with the reason of the rejection. *)
Theorem setQuizTTL_catches roomId w :
  let w' := snd (run (setQuizTTL roomId) w) in
  fst (run (setQuizTTL roomId) w) = Some (Fulfilled tt)
  /\ exists r ts,
       trace w' = trace w ++ (Smembers (REDIS_KEY.ROOM_QUIZ_SET roomId), r) :: ts
       /\ (length ts <= 1)%nat
       /\ (unfailed ((Smembers (REDIS_KEY.ROOM_QUIZ_SET roomId), r) :: ts) ->
           log w' = log w)
       /\ (forall rq reason,
             In (rq, Some reason)
                ((Smembers (REDIS_KEY.ROOM_QUIZ_SET roomId), r) :: ts) ->
             log w' = log w ++ [Error (quizFailed roomId) reason]
             /\ last ((Smembers (REDIS_KEY.ROOM_QUIZ_SET roomId), r) :: ts)
                = Some (rq, Some reason)).
Proof.
  intros w'. unfold w'. clear w'. rewrite run_setQuizTTL. cbn zeta.
  destruct (readSet _ _ (db w)) as [quizList|reason]; cbn [fst snd trace log].
  - split; [reflexivity|]. eexists _, [_]. split; [reflexivity|].
    split; [simpl; lia|]. split.
    + intros U. inversion U as [|? ? _ U']; subst.
      inversion U' as [|? ? F _]; subst. simpl in F. rewrite F. simpl.
      now rewrite app_nil_r.
    + intros rq reason [[=]|[[= <- F]|[]]]. rewrite F. simpl. now split.
  - split; [reflexivity|]. eexists _, []. split; [reflexivity|].
    split; [simpl; lia|]. split.
    + intros U. inversion U as [|? ? F _]; subst. discriminate.
    + intros rq reason' [[= <- <-]|[]]. now split.
Qed.

(** ** Which keys are written *)

Lemma split_segments sep s seg : In seg (split sep s) -> ~ hasChar sep seg.
Proof.
  unfold hasChar. revert seg. induction s as [|c s IH]; simpl; intros seg.
  - intros [<-|[]]. simpl. tauto.
  - destruct (Ascii.eqb_spec c sep) as [->|Hne].
    + intros [<-|Hin]; [simpl; tauto | now apply IH].
    + rewrite (split_cons sep s). intros [<-|Hin].
      * simpl. intros [E|Hc]; [congruence|].
        apply (IH (headSegment sep s)); [|exact Hc].
        rewrite (split_cons sep s). now left.
      * apply IH. rewrite (split_cons sep s). now right.
Qed.

Lemma roomIdOf_segment roomKey roomId :
  roomIdOf roomKey = Some roomId -> ~ hasChar ":" roomId.
Proof.
  unfold roomIdOf.
  destruct (split ":" roomKey !! 1%nat) as [[|c rest]|] eqn:E; try discriminate.
  intros [= <-]. apply (split_segments ":" roomKey).
  apply list_elem_of_In. now apply list_elem_of_lookup_2 in E.
Qed.

Lemma append_cancel_l a b c : a +:+ b = a +:+ c -> b = c.
Proof.
  induction a as [|x a IH]; simpl; intros H; [exact H|].
  injection H as H. now apply IH.
Qed.

(** The second segment of a key is all [processBatch] looks at: the part
    of the key after its first colon, up to the next colon. *)
Lemma second_segment namespace rest :
  ~ hasChar ":" namespace ->
  split ":" (namespace +:+ String ":" rest) !! 1%nat = Some (headSegment ":" rest).
Proof.
  intros H. rewrite split_append_sep, (split_no_sep _ _ H).
  now rewrite (split_cons ":" rest).
Qed.

Lemma headSegment_append a b :
  headSegment ":" (a +:+ String ":" b) = headSegment ":" a.
Proof.
  unfold headSegment. rewrite split_append_sep, (split_cons ":" a). reflexivity.
Qed.

(** X8.  [processBatch] reads the room identifier off the second segment
    of a key and nothing else.  So every key of room [roomId] with a
    suffix, [Room:{roomId}:...], is taken for the room itself: the player
    set, the leaderboard, the current quiz, the quiz set and the quiz
    records of a room each queue the same four commands as the room
    record.  And the namespace is not looked at: a key [ns:rest] of any
    namespace without a colon queues what [Room:rest] queues. *)
Theorem enqueueRoom_second_segment_only roomId quizId pipeline :
  (forall suffix,
      enqueueRoom pipeline (REDIS_KEY.ROOM (roomId +:+ ":" +:+ suffix))
      = enqueueRoom pipeline (REDIS_KEY.ROOM roomId))
  /\ Forall (fun key => enqueueRoom pipeline key
                        = enqueueRoom pipeline (REDIS_KEY.ROOM roomId))
            [ REDIS_KEY.ROOM_PLAYERS roomId;
              REDIS_KEY.ROOM_LEADERBOARD roomId;
              REDIS_KEY.ROOM_CURRENT_QUIZ roomId;
              REDIS_KEY.ROOM_QUIZ_SET roomId;
              REDIS_KEY.ROOM_QUIZ roomId quizId;
              REDIS_KEY.ROOM_QUIZ_CHOICES roomId quizId ]
  /\ (forall namespace rest,
        ~ hasChar ":" namespace ->
        enqueueRoom pipeline (namespace +:+ ":" +:+ rest)
        = enqueueRoom pipeline (REDIS_KEY.ROOM rest)).
Proof.
  assert (Hsuffix : forall suffix,
             enqueueRoom pipeline (REDIS_KEY.ROOM (roomId +:+ ":" +:+ suffix))
             = enqueueRoom pipeline (REDIS_KEY.ROOM roomId)).
  { intros suffix. unfold enqueueRoom. rewrite !split_ROOM.
    change (roomId +:+ ":" +:+ suffix) with (roomId +:+ String ":" suffix).
    now rewrite headSegment_append. }
  split; [exact Hsuffix|]. split.
  - repeat constructor.
    + apply (Hsuffix "Players").
    + apply (Hsuffix "Leaderboard").
    + apply (Hsuffix "CurrentQuiz").
    + apply (Hsuffix "QuizSet").
    + apply (Hsuffix ("Quiz:" +:+ quizId)).
    + apply (Hsuffix ("Quiz:" +:+ quizId +:+ ":Choices")).
  - intros namespace rest H. unfold enqueueRoom.
    change (namespace +:+ ":" +:+ rest) with (namespace +:+ String ":" rest).
    now rewrite (second_segment _ _ H), split_ROOM.
Qed.

Lemma pagePipeline_targets rooms c :
  In c (pagePipeline rooms) ->
  seconds c = TTL.ROOM
  /\ exists roomKey roomId,
       In roomKey rooms
       /\ roomIdOf roomKey = Some roomId
       /\ ~ hasChar ":" roomId
       /\ In (target c) (baseKeys roomId).
Proof.
  unfold pagePipeline. intros H. apply in_flat_map in H as (roomKey & Hin & H).
  unfold roomCommands in H. destruct (roomIdOf roomKey) as [roomId|] eqn:E;
    [|contradiction].
  apply in_map_iff in H as (key & <- & Hkey). split; [reflexivity|].
  exists roomKey, roomId. simpl. eauto using roomIdOf_segment.
Qed.

Lemma finalEntry_untouched key batch oe :
  (forall c, In c batch -> target c <> key) ->
  finalEntry key batch oe = oe.
Proof.
  unfold finalEntry. revert oe.
  induction batch as [|[k secs] batch IH]; intros oe H; [reflexivity|].
  simpl. rewrite IH by (intros c Hc; apply H; now right).
  destruct oe as [e|]; [|reflexivity].
  destruct (String.eqb_spec k key) as [->|_]; [|reflexivity].
  exfalso. apply (H (Expire key secs)); [now left | reflexivity].
Qed.

Lemma deliver_untouched i key batch d :
  (forall c, In c batch -> target c <> key) ->
  deliver i batch d !! key = d !! key.
Proof.
  intros H. unfold deliver. destruct (fault i); [reflexivity|].
  rewrite execPipeline_lookup. now apply finalEntry_untouched.
Qed.

(** A key that is no base key of any room. *)
Lemma pagePipeline_untouched rooms key :
  (forall roomId, ~ hasChar ":" roomId -> ~ In key (baseKeys roomId)) ->
  forall c, In c (pagePipeline rooms) -> target c <> key.
Proof.
  intros H c Hc <-.
  apply pagePipeline_targets in Hc as (_ & roomKey & roomId & _ & _ & Hno & Hin).
  exact (H roomId Hno Hin).
Qed.

Lemma base_key_not_player roomId key playerId :
  ~ hasChar ":" roomId -> In key (baseKeys roomId) -> key <> REDIS_KEY.PLAYER playerId.
Proof.
  intros Hno Hin ->. pose proof (ttlClass_base _ _ Hno Hin) as H.
  rewrite ttlClass_player in H. discriminate.
Qed.

Lemma base_key_not_quiz roomId key x rest :
  ~ hasChar ":" roomId -> In key (baseKeys roomId) ->
  key <> "Room:" +:+ x +:+ ":Quiz:" +:+ rest.
Proof.
  intros Hno Hin ->. pose proof (ttlClass_base _ _ Hno Hin) as H.
  rewrite ttlClass_quiz in H. discriminate.
Qed.

Lemma base_key_not_quiz_set roomId key x :
  ~ hasChar ":" roomId -> In key (baseKeys roomId) ->
  key <> REDIS_KEY.ROOM_QUIZ_SET x.
Proof.
  intros Hno Hin E. apply (f_equal (split ":")) in E.
  unfold REDIS_KEY.ROOM_QUIZ_SET in E.
  change ("Room:" +:+ x +:+ ":QuizSet")
    with ("Room" +:+ String ":" (x +:+ String ":" "QuizSet")) in E.
  rewrite !split_append_sep in E. rewrite (split_cons ":" x) in E. simpl in E.
  simpl in Hin. destruct Hin as [<-|[<-|[<-|[<-|[]]]]].
  - unfold REDIS_KEY.ROOM in E.
    change ("Room:" +:+ roomId) with ("Room" +:+ String ":" roomId) in E.
    rewrite split_append_sep, (split_no_sep _ _ Hno) in E. simpl in E.
    injection E as _ E. now destruct (tl (split ":" x)).
  - unfold REDIS_KEY.ROOM_PLAYERS in E.
    change ("Room:" +:+ roomId +:+ ":Players")
      with ("Room" +:+ String ":" (roomId +:+ String ":" "Players")) in E.
    rewrite !split_append_sep, (split_no_sep _ _ Hno) in E. simpl in E.
    injection E as _ E. destruct (tl (split ":" x)) as [|y [|z l]]; discriminate.
  - unfold REDIS_KEY.ROOM_LEADERBOARD in E.
    change ("Room:" +:+ roomId +:+ ":Leaderboard")
      with ("Room" +:+ String ":" (roomId +:+ String ":" "Leaderboard")) in E.
    rewrite !split_append_sep, (split_no_sep _ _ Hno) in E. simpl in E.
    injection E as _ E. destruct (tl (split ":" x)) as [|y [|z l]]; discriminate.
  - unfold REDIS_KEY.ROOM_CURRENT_QUIZ in E.
    change ("Room:" +:+ roomId +:+ ":CurrentQuiz")
      with ("Room" +:+ String ":" (roomId +:+ String ":" "CurrentQuiz")) in E.
    rewrite !split_append_sep, (split_no_sep _ _ Hno) in E. simpl in E.
    injection E as _ E. destruct (tl (split ":" x)) as [|y [|z l]]; discriminate.
Qed.

Lemma scanLoop_frame fuel cursor w key :
  (forall roomId, ~ hasChar ":" roomId -> ~ In key (baseKeys roomId)) ->
  db (snd (run (scanLoop fuel cursor) w)) !! key = db w !! key.
Proof.
  intros Hkey. revert cursor w.
  induction fuel as [|fuel IH]; intros cursor w; [reflexivity|].
  rewrite run_scanLoop.
  destruct (roundTrip (Scan cursor "Room:*" BATCH_SIZE) w) as [r w1] eqn:E.
  apply roundTrip_Scan_inv in E as (_ & _ & D1 & ->).
  destruct (fault (length (trace w))) as [reason|]; [simpl; now rewrite D1|].
  destruct (scanImpl (dom (db w)) cursor "Room:*" BATCH_SIZE) as [nextCursor rooms].
  destruct (nonEmpty rooms).
  - rewrite run_processBatch. set (w2 := World _ _ _).
    assert (D2 : db w2 !! key = db w !! key).
    { unfold w2. simpl. rewrite D1. apply deliver_untouched.
      now apply pagePipeline_untouched. }
    destruct (fault (length (trace w1))) as [reason|]; [exact D2|].
    destruct (negb (String.eqb nextCursor "0")); [|exact D2].
    now rewrite IH.
  - destruct (negb (String.eqb nextCursor "0")); [|simpl; now rewrite D1].
    now rewrite IH, D1.
Qed.

(** X6.  Whatever is lost and however long it runs, a sweep writes to
    base keys of rooms only: every key that is no base key of a room is
    left exactly as it was.  In particular the sweep never extends the
    record of a player, the quiz set of a room, a quiz record or the
    choices of a quiz. *)
Theorem manageTTL_writes_base_keys_only fuel w :
  let w' := snd (run (manageTTL fuel) w) in
  (forall key,
      (forall roomId, ~ hasChar ":" roomId -> ~ In key (baseKeys roomId)) ->
      db w' !! key = db w !! key)
  /\ (forall playerId,
        db w' !! REDIS_KEY.PLAYER playerId = db w !! REDIS_KEY.PLAYER playerId)
  /\ (forall roomId,
        db w' !! REDIS_KEY.ROOM_QUIZ_SET roomId
        = db w !! REDIS_KEY.ROOM_QUIZ_SET roomId)
  /\ (forall roomId quizId,
        db w' !! REDIS_KEY.ROOM_QUIZ roomId quizId
        = db w !! REDIS_KEY.ROOM_QUIZ roomId quizId)
  /\ (forall roomId quizId,
        db w' !! REDIS_KEY.ROOM_QUIZ_CHOICES roomId quizId
        = db w !! REDIS_KEY.ROOM_QUIZ_CHOICES roomId quizId).
Proof.
  intros w'.
  assert (Hframe : forall key,
             (forall roomId, ~ hasChar ":" roomId -> ~ In key (baseKeys roomId)) ->
             db w' !! key = db w !! key).
  { intros key Hkey. unfold w'. rewrite run_manageTTL.
    pose proof (scanLoop_frame fuel "0" w key Hkey) as H.
    now destruct (run (scanLoop fuel "0") w) as [[[[]|reason]|] w1]. }
  split; [exact Hframe|]. split; [|split; [|split]].
  - intros playerId. apply Hframe. intros roomId Hno Hin.
    now apply (base_key_not_player roomId _ playerId Hno Hin).
  - intros x. apply Hframe. intros roomId Hno Hin.
    now apply (base_key_not_quiz_set roomId _ x Hno Hin).
  - intros x q. apply Hframe. intros roomId Hno Hin.
    now apply (base_key_not_quiz roomId _ x q Hno Hin).
  - intros x q. apply Hframe. intros roomId Hno Hin.
    now apply (base_key_not_quiz roomId _ x (q +:+ ":Choices") Hno Hin).
Qed.

Lemma playerPipeline_targets players c :
  In c (playerPipeline players) -> exists playerId, target c = REDIS_KEY.PLAYER playerId.
Proof.
  unfold playerPipeline, expireAll. intros H.
  apply in_map_iff in H as (key & <- & H).
  apply in_map_iff in H as (playerId & <- & _). now exists playerId.
Qed.

Lemma quizPipeline_targets roomId quizList c :
  In c (quizPipeline roomId quizList) ->
  exists quizId,
    target c = REDIS_KEY.ROOM_QUIZ roomId quizId
    \/ target c = REDIS_KEY.ROOM_QUIZ_CHOICES roomId quizId.
Proof.
  unfold quizPipeline. intros H.
  apply in_flat_map in H as (quizId & _ & [<-|[<-|[]]]); exists quizId; simpl; auto.
Qed.

Lemma quiz_set_not_rewritten roomId :
  (forall id, ~ hasChar ":" id -> ~ In (REDIS_KEY.ROOM_QUIZ_SET roomId) (baseKeys id))
  /\ (forall playerId, REDIS_KEY.ROOM_QUIZ_SET roomId <> REDIS_KEY.PLAYER playerId)
  /\ (forall quizId, REDIS_KEY.ROOM_QUIZ_SET roomId <> REDIS_KEY.ROOM_QUIZ roomId quizId)
  /\ (forall quizId,
        REDIS_KEY.ROOM_QUIZ_SET roomId <> REDIS_KEY.ROOM_QUIZ_CHOICES roomId quizId).
Proof.
  split; [|split; [|split]].
  - intros id Hno Hin. now apply (base_key_not_quiz_set id _ roomId Hno Hin).
  - intros playerId. discriminate.
  - intros quizId E. unfold REDIS_KEY.ROOM_QUIZ_SET, REDIS_KEY.ROOM_QUIZ in E.
    apply (append_cancel_l "Room:"), append_cancel_l in E. discriminate.
  - intros quizId E.
    unfold REDIS_KEY.ROOM_QUIZ_SET, REDIS_KEY.ROOM_QUIZ_CHOICES in E.
    apply (append_cancel_l "Room:"), append_cancel_l in E. discriminate.
Qed.

(** X7.  Whatever is lost, a refresh of room [roomId] writes only to base
    keys of rooms, to records of players and to the quiz records and
    choices of [roomId]; every other key is left exactly as it was.  In
    particular it never extends the quiz set [Room:{roomId}:QuizSet] it
    reads the quizzes from. *)
Theorem setRoomTTL_never_extends_quiz_set fuel roomId w :
  (5 <= fuel)%nat ->
  exists w',
    setRoomTTL fuel roomId w = Some (Fulfilled tt, w')
    /\ (forall key,
          (forall id, ~ hasChar ":" id -> ~ In key (baseKeys id)) ->
          (forall playerId, key <> REDIS_KEY.PLAYER playerId) ->
          (forall quizId, key <> REDIS_KEY.ROOM_QUIZ roomId quizId) ->
          (forall quizId, key <> REDIS_KEY.ROOM_QUIZ_CHOICES roomId quizId) ->
          db w' !! key = db w !! key)
    /\ db w' !! REDIS_KEY.ROOM_QUIZ_SET roomId = db w !! REDIS_KEY.ROOM_QUIZ_SET roomId.
Proof.
  intros Hfuel. exists (settleRoom roomId w).
  rewrite setRoomTTL_settleRoom by exact Hfuel. split; [reflexivity|].
  destruct (settleRoom_spec roomId w) as [_ D].
  assert (Hframe : forall key,
             (forall id, ~ hasChar ":" id -> ~ In key (baseKeys id)) ->
             (forall playerId, key <> REDIS_KEY.PLAYER playerId) ->
             (forall quizId, key <> REDIS_KEY.ROOM_QUIZ roomId quizId) ->
             (forall quizId, key <> REDIS_KEY.ROOM_QUIZ_CHOICES roomId quizId) ->
             db (settleRoom roomId w) !! key = db w !! key).
  { intros key Hbase Hplayer Hquiz Hchoices. rewrite D. unfold roomDb.
    assert (Hb : forall i d,
               deliver i (pagePipeline [REDIS_KEY.ROOM roomId]) d !! key = d !! key)
      by (intros i d; apply deliver_untouched; now apply pagePipeline_untouched).
    assert (Hp : forall i ps d, deliver i (playerPipeline ps) d !! key = d !! key).
    { intros i ps d. apply deliver_untouched. intros c Hc E.
      apply playerPipeline_targets in Hc as (p & Hc). rewrite E in Hc.
      exact (Hplayer p Hc). }
    assert (Hq : forall i qs d, deliver i (quizPipeline roomId qs) d !! key = d !! key).
    { intros i qs d. apply deliver_untouched. intros c Hc E.
      apply quizPipeline_targets in Hc as (q & [Hc|Hc]); rewrite E in Hc.
      - exact (Hquiz q Hc).
      - exact (Hchoices q Hc). }
    destruct (readSet _ (REDIS_KEY.ROOM_PLAYERS roomId) _) as [ps|e2],
             (readSet _ (REDIS_KEY.ROOM_QUIZ_SET roomId) _) as [qs|e3];
      now rewrite ?Hq, ?Hp, ?Hb. }
  split; [exact Hframe|].
  destruct (quiz_set_not_rewritten roomId) as (H1 & H2 & H3 & H4).
  now apply Hframe.
Qed.

(** *** What a refresh logs *)

Lemma logFailure_log {A : Type} message (r : settled A) w :
  log (logFailure message r w) = log w ++ failureLines message (reasonOf r).
Proof. destruct r; simpl; [now rewrite app_nil_r | reflexivity]. Qed.

Lemma roomLog_setRoomTTL roomId w :
  log (settleRoom roomId w) = log w ++ roomLog roomId w.
Proof.
  unfold settleRoom, roomLog.
  set (n := length (trace w)).
  destruct (roundTrip (Exec _) w) as [r1 w1] eqn:E1.
  apply roundTrip_Exec_inv in E1 as (T1 & L1 & D1 & _). fold n in T1, D1.
  destruct (roundTrip (Smembers _) w1) as [players w2] eqn:E2.
  apply roundTrip_Smembers_inv in E2 as (T2 & L2 & D2 & R2).
  assert (N1 : length (trace w1) = (n + 1)%nat)
    by (rewrite T1, length_app; reflexivity).
  rewrite N1 in R2.
  rewrite (readSet_sameValues _ _ (db w1) (db w)) in R2
    by (rewrite D1; apply deliver_sameValues, positive_pagePipeline).
  rewrite <- R2.
  match goal with |- context [roundTrip (Smembers ?k) ?x] =>
    destruct (roundTrip (Smembers k) x) as [quizList w3] eqn:E3 end.
  apply roundTrip_Smembers_inv in E3 as (T3 & L3 & D3 & R3).
  unlog. rewrite logFailure_log in L3.
  assert (N2 : length (trace w2) = (n + 2)%nat)
    by (rewrite T2, length_app, N1; simpl; lia).
  rewrite N2 in R3.
  rewrite (readSet_sameValues _ _ (db w2) (db w)) in R3
    by (rewrite D2, D1; apply deliver_sameValues, positive_pagePipeline).
  rewrite <- R3.
  assert (N3 : length (trace w3) = (n + 3)%nat)
    by (rewrite T3, length_app, N2; simpl; lia).
  destruct players as [ps|e2]; cbn [fulfilled reasonOf failureLines] in *.
  - match goal with |- context [roundTrip (Exec ?b) ?x] =>
      destruct (roundTrip (Exec b) x) as [r4 w4] eqn:E4 end.
    apply roundTrip_Exec_inv in E4 as (T4 & L4 & _ & R4).
    unlog. rewrite logFailure_log in L4. rewrite N3 in T4, R4.
    assert (N4 : length (trace w4) = (n + 3 + 1)%nat)
      by (rewrite T4, length_app, N3; simpl; lia).
    destruct quizList as [qs|e3]; cbn [fulfilled reasonOf failureLines] in *.
    + match goal with |- context [roundTrip (Exec ?b) ?x] =>
        destruct (roundTrip (Exec b) x) as [r5 w5] eqn:E5 end.
      apply roundTrip_Exec_inv in E5 as (T5 & L5 & _ & R5).
      unlog. rewrite logFailure_log in L5. rewrite N4 in R5.
      rewrite !logFailure_log, L5, L4, L3, L2, L1, R5, R4.
      now rewrite <- !app_assoc.
    + rewrite !logFailure_log, L4, L3, L2, L1, R4.
      simpl. now rewrite <- !app_assoc, !app_nil_r.
  - destruct quizList as [qs|e3]; cbn [fulfilled reasonOf failureLines] in *.
    + match goal with |- context [roundTrip (Exec ?b) ?x] =>
        destruct (roundTrip (Exec b) x) as [r5 w5] eqn:E5 end.
      apply roundTrip_Exec_inv in E5 as (T5 & L5 & _ & R5).
      unlog. rewrite logFailure_log in L5. rewrite N3 in R5.
      rewrite !logFailure_log, L5, L3, L2, L1, R5, Nat.add_0_r.
      simpl. now rewrite <- !app_assoc.
    + rewrite !logFailure_log, L3, L2, L1.
      simpl. now rewrite <- !app_assoc.
Qed.

(** X12.  All that a refresh logs are failures of its two refreshers: at
    most two lines, each the failure line of the player refresher or of
    the quiz refresher for this room.  The base task has no line of its
    own: when both reads are answered and the pipelines of the two
    refreshers go through, nothing at all is logged, whatever becomes of
    the base pipeline. *)
Theorem setRoomTTL_logs_refreshers_only fuel roomId w :
  (5 <= fuel)%nat ->
  let n := length (trace w) in
  exists w' lines,
    setRoomTTL fuel roomId w = Some (Fulfilled tt, w')
    /\ log w' = log w ++ lines
    /\ (length lines <= 2)%nat
    /\ Forall (fun line =>
                 exists reason,
                   line = Error (playersFailed roomId) reason
                   \/ line = Error (quizFailed roomId) reason) lines
    /\ (forall ps qs,
          (forall i, i <> n -> fault i = None) ->
          readSet (n + 1) (REDIS_KEY.ROOM_PLAYERS roomId) (db w) = Fulfilled ps ->
          readSet (n + 2) (REDIS_KEY.ROOM_QUIZ_SET roomId) (db w) = Fulfilled qs ->
          lines = []).
Proof.
  intros Hfuel n. exists (settleRoom roomId w), (roomLog roomId w).
  rewrite setRoomTTL_settleRoom by exact Hfuel. split; [reflexivity|].
  split; [apply roomLog_setRoomTTL|].
  assert (Hp : forall r, Forall (fun line =>
                 exists reason,
                   line = Error (playersFailed roomId) reason
                   \/ line = Error (quizFailed roomId) reason)
                 (failureLines (playersFailed roomId) r))
    by (intros [r|]; repeat constructor; eauto).
  assert (Hq : forall r, Forall (fun line =>
                 exists reason,
                   line = Error (playersFailed roomId) reason
                   \/ line = Error (quizFailed roomId) reason)
                 (failureLines (quizFailed roomId) r))
    by (intros [r|]; repeat constructor; eauto).
  split; [|split].
  - unfold roomLog. fold n.
    destruct (readSet (n + 1) _ _) as [ps|e2], (readSet (n + 2) _ _) as [qs|e3];
      cbn [fulfilled reasonOf failureLines app];
      repeat match goal with |- context [fault ?i] => destruct (fault i) end;
      simpl; lia.
  - unfold roomLog. fold n. rewrite !Forall_app.
    destruct (fulfilled (readSet (n + 1) _ _)), (fulfilled (readSet (n + 2) _ _));
      repeat split; auto.
  - intros ps qs Fother P Q.
    unfold roomLog. fold n. rewrite P, Q. cbn [fulfilled reasonOf failureLines app].
    now rewrite !Fother by lia.
Qed.

(** *** A scan that never ends *)

Lemma scanLoop_endless fuel cursor w :
  (forall i, fault i = None) ->
  (forall keys c, fst (scanImpl keys c "Room:*" BATCH_SIZE) <> "0") ->
  fst (run (scanLoop fuel cursor) w) = None
  /\ log (snd (run (scanLoop fuel cursor) w)) = log w
  /\ exists ts,
       trace (snd (run (scanLoop fuel cursor) w)) = trace w ++ ts
       /\ length (scans ts) = fuel.
Proof.
  intros F Hnever. revert cursor w.
  induction fuel as [|fuel IH]; intros cursor w.
  - simpl. split; [reflexivity|]. split; [reflexivity|].
    exists []. now rewrite app_nil_r.
  - rewrite run_scanLoop.
    destruct (roundTrip (Scan cursor "Room:*" BATCH_SIZE) w) as [r w1] eqn:E.
    apply roundTrip_Scan_inv in E as (T1 & L1 & _ & ->). rewrite F in *.
    pose proof (Hnever (dom (db w)) cursor) as Hnext.
    destruct (scanImpl (dom (db w)) cursor "Room:*" BATCH_SIZE) as [nextCursor rooms].
    simpl in Hnext. apply String.eqb_neq in Hnext. rewrite Hnext. cbn [negb].
    destruct (nonEmpty rooms).
    + rewrite run_processBatch, F. set (w2 := World _ _ _).
      destruct (IH nextCursor w2) as (O & L & ts & T & S).
      split; [exact O|]. split; [now rewrite L|].
      eexists. split.
      * rewrite T. unfold w2. simpl. rewrite T1, <- !app_assoc. reflexivity.
      * simpl. now rewrite S.
    + destruct (IH nextCursor w1) as (O & L & ts & T & S).
      split; [exact O|]. split; [now rewrite L|].
      eexists. split.
      * rewrite T, T1, <- app_assoc. reflexivity.
      * simpl. now rewrite S.
Qed.

(** X4.  The sweep has no bound of its own.  Against a server whose
    cursor never comes back to 0, with nothing lost, the sweep makes every
    scan it is given time for and still has not finished: it is neither
    fulfilled nor rejected, and it logs nothing, neither that it is done
    nor that it failed. *)
Theorem manageTTL_unbounded fuel w :
  (forall i, fault i = None) ->
  (forall keys cursor, fst (scanImpl keys cursor "Room:*" BATCH_SIZE) <> "0") ->
  fst (run (manageTTL fuel) w) = None
  /\ log (snd (run (manageTTL fuel) w)) = log w
  /\ exists ts,
       trace (snd (run (manageTTL fuel) w)) = trace w ++ ts
       /\ length (scans ts) = fuel.
Proof.
  intros F Hnever. rewrite run_manageTTL.
  destruct (scanLoop_endless fuel "0" w F Hnever) as (O & L & ts & T & S).
  destruct (run (scanLoop fuel "0") w) as [[o|] w1]; [discriminate|].
  simpl in *. split; [reflexivity|]. split; [exact L|]. now exists ts.
Qed.

(** *** What a sweep leaves *)

Lemma pagePipeline_app rooms1 rooms2 :
  pagePipeline (rooms1 ++ rooms2) = pagePipeline rooms1 ++ pagePipeline rooms2.
Proof. unfold pagePipeline. apply flat_map_app. Qed.

Lemma scanLoop_db fuel cursor w pages :
  (forall i, fault i = None) ->
  scanPages fuel (dom (db w)) cursor = Some pages ->
  db (snd (run (scanLoop fuel cursor) w))
  = snd (execPipeline (pagePipeline (concat pages)) (db w)).
Proof.
  intros F. revert cursor w pages.
  induction fuel as [|fuel IH]; intros cursor w pages Hpages; [discriminate|].
  cbn [scanPages] in Hpages. rewrite run_scanLoop.
  destruct (roundTrip (Scan cursor "Room:*" BATCH_SIZE) w) as [r w1] eqn:E.
  apply roundTrip_Scan_inv in E as (_ & _ & D1 & ->). rewrite F in *.
  destruct (scanImpl (dom (db w)) cursor "Room:*" BATCH_SIZE) as [nextCursor rooms].
  destruct (nonEmpty rooms) eqn:N.
  - rewrite run_processBatch, F. set (w2 := World _ _ _).
    assert (D2 : db w2 = snd (execPipeline (pagePipeline rooms) (db w)))
      by (unfold w2, deliver; simpl; now rewrite F, D1).
    destruct (negb (String.eqb nextCursor "0")).
    + destruct (scanPages fuel (dom (db w)) nextCursor) as [rest|] eqn:R;
        [|discriminate]. injection Hpages as <-.
      rewrite <- (execPipeline_dom_eq (pagePipeline rooms) (db w)
                    (positive_pagePipeline rooms)), <- D2 in R.
      rewrite (IH nextCursor w2 rest R), D2. simpl.
      now rewrite pagePipeline_app, execPipeline_app.
    + injection Hpages as <-. simpl. now rewrite app_nil_r.
  - assert (rooms = []) as -> by (destruct rooms; [reflexivity|discriminate]).
    destruct (negb (String.eqb nextCursor "0")).
    + destruct (scanPages fuel (dom (db w)) nextCursor) as [rest|] eqn:R;
        [|discriminate]. injection Hpages as <-.
      rewrite <- D1 in R. rewrite (IH nextCursor w1 rest R), D1. reflexivity.
    + injection Hpages as <-. simpl. now rewrite D1.
Qed.

(** A sweep that loses nothing, in closed form. *)
Lemma manageTTL_nofault fuel w pages :
  (forall i, fault i = None) ->
  scanPages fuel (dom (db w)) "0" = Some pages ->
  fst (run (manageTTL fuel) w) = Some (Fulfilled tt)
  /\ db (snd (run (manageTTL fuel) w))
     = snd (execPipeline (pagePipeline (concat pages)) (db w)).
Proof.
  intros F Hpages.
  pose proof (scanLoop_db fuel "0" w pages F Hpages) as D.
  destruct (scanLoop_pages fuel "0" w pages F Hpages) as (w1 & ts & Hrun & _).
  rewrite run_manageTTL. rewrite Hrun in *. simpl in *. now split.
Qed.

(** X5.  After a sweep that loses nothing and comes back to cursor 0,
    every base key of every room found under a scanned key and present in
    the store has its value as before and the ROOM time to live. *)
Theorem manageTTL_extends_base_keys fuel w pages :
  (forall i, fault i = None) ->
  scanPages fuel (dom (db w)) "0" = Some pages ->
  forall roomKey roomId key e,
    In roomKey (concat pages) ->
    roomIdOf roomKey = Some roomId ->
    In key (baseKeys roomId) ->
    db w !! key = Some e ->
    db (snd (run (manageTTL fuel) w)) !! key
    = Some (Entry (value e) (Some TTL.ROOM)).
Proof.
  intros F Hpages roomKey roomId key e Hin Hid Hkey He.
  destruct (manageTTL_nofault fuel w pages F Hpages) as [_ ->].
  rewrite execPipeline_lookup, He, finalEntry_last by apply positive_pagePipeline.
  assert (Hc : In (Expire key TTL.ROOM) (pagePipeline (concat pages))).
  { apply in_flat_map. exists roomKey. split; [exact Hin|].
    unfold roomCommands. rewrite Hid. apply in_map_iff. now exists key. }
  destruct (In_lastSecs _ _ _ Hc) as [s Hs]. rewrite Hs.
  apply lastSecs_In, pagePipeline_targets in Hs as [Hs _]. simpl in Hs.
  now rewrite Hs.
Qed.

(** X9.  Two sweeps in a row that lose nothing leave the store exactly as
    the first one left it: the second finds the same pages and writes the
    same times again. *)
Theorem manageTTL_idempotent fuel w pages :
  (forall i, fault i = None) ->
  scanPages fuel (dom (db w)) "0" = Some pages ->
  let w1 := snd (run (manageTTL fuel) w) in
  let w2 := snd (run (manageTTL fuel) w1) in
  fst (run (manageTTL fuel) w) = Some (Fulfilled tt)
  /\ fst (run (manageTTL fuel) w1) = Some (Fulfilled tt)
  /\ scanPages fuel (dom (db w1)) "0" = Some pages
  /\ db w2 = db w1.
Proof.
  intros F Hpages w1 w2.
  destruct (manageTTL_nofault fuel w pages F Hpages) as [O1 D1]. fold w1 in D1.
  assert (Hpages1 : scanPages fuel (dom (db w1)) "0" = Some pages).
  { rewrite D1, execPipeline_dom_eq by apply positive_pagePipeline. exact Hpages. }
  destruct (manageTTL_nofault fuel w1 pages F Hpages1) as [O2 D2]. fold w2 in D2.
  split; [exact O1|]. split; [exact O2|]. split; [exact Hpages1|].
  rewrite D2, D1. apply execPipeline_twice, positive_pagePipeline.
Qed.

(** *** The order of the writes *)

(** Two batches of positive times that hold the same commands, every
    command asking for the time of the class of its key, leave the same
    store in whatever order their commands come. *)
Lemma execPipeline_order b1 b2 d :
  Forall (fun c => 0 < seconds c) b1 ->
  Forall (fun c => 0 < seconds c) b2 ->
  (forall c, In c b1 <-> In c b2) ->
  (forall c, In c b1 -> seconds c = ttlClass (target c)) ->
  snd (execPipeline b1 d) = snd (execPipeline b2 d).
Proof.
  intros P1 P2 Hsame Hclass. apply map_eq. intros k.
  rewrite !execPipeline_lookup.
  destruct (d !! k) as [e|]; [|now rewrite !finalEntry_None].
  rewrite !finalEntry_last by assumption. do 2 f_equal.
  destruct (lastSecs k b1) as [s1|] eqn:E1, (lastSecs k b2) as [s2|] eqn:E2.
  - apply lastSecs_In in E1, E2. apply Hsame in E2.
    apply Hclass in E1, E2. simpl in *. congruence.
  - apply lastSecs_In, Hsame, In_lastSecs in E1 as [s E1]. congruence.
  - apply lastSecs_In, Hsame, In_lastSecs in E2 as [s E2]. congruence.
  - reflexivity.
Qed.

Lemma pagePipeline_class rooms c :
  In c (pagePipeline rooms) -> seconds c = ttlClass (target c).
Proof.
  intros H. apply pagePipeline_targets in H as (-> & _ & roomId & _ & _ & Hno & Hin).
  symmetry. now apply ttlClass_base with roomId.
Qed.

Lemma execMembers_sameValues key d1 d2 :
  sameValues d1 d2 -> fst (execMembers key d1) = fst (execMembers key d2).
Proof.
  intros V. unfold execMembers. specialize (V key).
  destruct (d1 !! key) as [[v1 t1]|], (d2 !! key) as [[v2 t2]|];
    simpl in *; try discriminate; [|reflexivity].
  injection V as ->. now destruct v2.
Qed.

(** X10.  A sweep and a refresh of a room commute: with nothing lost,
    refreshing and then sweeping leaves the same store as sweeping and
    then refreshing. *)
Theorem sweep_and_refresh_commute fuel fuel' roomId w pages :
  (5 <= fuel')%nat ->
  (forall i, fault i = None) ->
  scanPages fuel (dom (db w)) "0" = Some pages ->
  exists refreshed swept,
    setRoomTTL fuel' roomId w = Some (Fulfilled tt, refreshed)
    /\ fst (run (manageTTL fuel) refreshed) = Some (Fulfilled tt)
    /\ run (manageTTL fuel) w = (Some (Fulfilled tt), swept)
    /\ exists both,
         setRoomTTL fuel' roomId swept = Some (Fulfilled tt, both)
         /\ db (snd (run (manageTTL fuel) refreshed)) = db both.
Proof.
  intros Hfuel F Hpages.
  set (refreshed := settleRoom roomId w).
  set (swept := snd (run (manageTTL fuel) w)).
  exists refreshed, swept.
  rewrite !setRoomTTL_settleRoom by exact Hfuel.
  destruct (settleRoom_nofault roomId w F) as [Dr _]. fold refreshed in Dr.
  destruct (manageTTL_nofault fuel w pages F Hpages) as [Os Ds]. fold swept in Ds.
  assert (Hpages' : scanPages fuel (dom (db refreshed)) "0" = Some pages).
  { rewrite Dr, execPipeline_dom_eq by apply positive_roomBatch. exact Hpages. }
  destruct (manageTTL_nofault fuel refreshed pages F Hpages') as [Ors Drs].
  destruct (settleRoom_nofault roomId swept F) as [Dsr _].
  assert (Vs : sameValues (db swept) (db w)).
  { rewrite Ds. intros k. apply execPipeline_value, positive_pagePipeline. }
  rewrite (roomBatch_sameValues _ _ _ Vs) in Dsr.
  split; [reflexivity|]. split; [exact Ors|]. split.
  { unfold swept. destruct (run (manageTTL fuel) w) as [o ws]. simpl in Os.
    now rewrite Os. }
  exists (settleRoom roomId swept). split; [reflexivity|].
  rewrite Drs, Dr, Dsr, Ds, <- !execPipeline_app.
  apply execPipeline_order.
  - apply Forall_app. split; [apply positive_roomBatch | apply positive_pagePipeline].
  - apply Forall_app. split; [apply positive_pagePipeline | apply positive_roomBatch].
  - intros c. rewrite !in_app_iff. tauto.
  - intros c Hc. apply in_app_or in Hc as [Hc|Hc].
    + now apply roomBatch_class in Hc.
    + now apply pagePipeline_class in Hc.
Qed.

Lemma positive_taskBatch roomId d t :
  Forall (fun c => 0 < seconds c) (taskBatch roomId d t).
Proof.
  destruct t; cbn [taskBatch].
  - apply positive_pagePipeline.
  - destruct (fst (execMembers _ d)); [apply positive_playerPipeline|constructor].
  - destruct (fst (execMembers _ d)); [apply positive_quizPipeline|constructor].
Qed.

Lemma roomBatch_tasks roomId d :
  flat_map (taskBatch roomId d) [BaseKeys; Players; Quizzes] = roomBatch roomId d.
Proof. unfold roomBatch. cbn [flat_map taskBatch]. now rewrite app_nil_r. Qed.

(** A task run on its own with nothing lost carries out its pipeline. *)
Lemma run_task_db roomId t w0 w :
  (forall i, fault i = None) ->
  sameValues (db w0) (db w) ->
  db (snd (run (taskOf roomId t) w0))
  = snd (execPipeline (taskBatch roomId (db w) t) (db w0)).
Proof.
  intros F V. destruct t; cbn [taskOf taskBatch].
  - rewrite run_processBatch. simpl. unfold deliver. now rewrite F.
  - rewrite run_setPlayersTTL. cbn zeta. unfold readSet. rewrite F. simpl.
    rewrite <- (execMembers_sameValues _ _ _ V).
    destruct (fst (execMembers _ (db w0))) as [ps|e]; [|reflexivity].
    simpl. unfold deliver. now rewrite F.
  - rewrite run_setQuizTTL. cbn zeta. unfold readSet. rewrite F. simpl.
    rewrite <- (execMembers_sameValues _ _ _ V).
    destruct (fst (execMembers _ (db w0))) as [qs|e]; [|reflexivity].
    simpl. unfold deliver. now rewrite F.
Qed.

Lemma runSeq_cons p ps w : runSeq (p :: ps) w = runSeq ps (snd (run p w)).
Proof. reflexivity. Qed.

Lemma runSeq_db roomId order w0 w :
  (forall i, fault i = None) ->
  sameValues (db w0) (db w) ->
  db (runSeq (map (taskOf roomId) order) w0)
  = snd (execPipeline (flat_map (taskBatch roomId (db w)) order) (db w0)).
Proof.
  intros F. revert w0. induction order as [|t order IH]; intros w0 V; [reflexivity|].
  cbn [map flat_map]. rewrite runSeq_cons.
  pose proof (run_task_db roomId t w0 w F V) as D.
  rewrite IH.
  - now rewrite D, execPipeline_app.
  - rewrite D. eapply sameValues_trans; [|exact V].
    intros k. apply execPipeline_value, positive_taskBatch.
Qed.

(** X11.  With nothing lost, the order of the three tasks does not
    matter: running them one after the other to the end, in any order,
    leaves the store that [setRoomTTL] leaves when it runs them together
    under [Promise.allSettled]. *)
Theorem setRoomTTL_order_irrelevant fuel roomId w order :
  (5 <= fuel)%nat ->
  (forall i, fault i = None) ->
  Permutation order [BaseKeys; Players; Quizzes] ->
  exists w',
    setRoomTTL fuel roomId w = Some (Fulfilled tt, w')
    /\ db (runSeq (map (taskOf roomId) order) w) = db w'.
Proof.
  intros Hfuel F Hperm. exists (settleRoom roomId w).
  rewrite setRoomTTL_settleRoom by exact Hfuel. split; [reflexivity|].
  destruct (settleRoom_nofault roomId w F) as [-> _].
  rewrite (runSeq_db roomId order w w F (sameValues_refl _)).
  assert (Hflat : Permutation (flat_map (taskBatch roomId (db w)) order)
                              (roomBatch roomId (db w))).
  { rewrite <- roomBatch_tasks. now apply Permutation_flat_map. }
  apply execPipeline_order.
  - apply List.Forall_forall. intros c Hc.
    apply in_flat_map in Hc as (t & _ & Hc).
    pose proof (positive_taskBatch roomId (db w) t) as P.
    rewrite List.Forall_forall in P. now apply P.
  - apply positive_roomBatch.
  - intros c. split; intros Hc.
    + now apply (Permutation_in _ Hflat).
    + now apply (Permutation_in _ (Permutation_sym Hflat)).
  - intros c Hc. apply (Permutation_in _ Hflat) in Hc.
    now apply roomBatch_class in Hc.
Qed.

(** *** What a refresh leaves *)


End Running.

(** ** Two runs *)

(** A sweep over a store without room keys: one scan, no pipeline. *)
Example sweep_without_rooms :
  let w := World (<["Player:p1" := Entry VOther None]> ∅) [] [] in
  fst (run (redis := reliable) (manageTTL 3) w) = Some (Fulfilled tt)
  /\ trace (snd (run (redis := reliable) (manageTTL 3) w))
     = [(Scan "0" "Room:*" BATCH_SIZE, None)]
  /\ log (snd (run (redis := reliable) (manageTTL 3) w))
     = [Verbose "TTL 관리 완료"].
Proof. vm_compute. repeat split. Qed.

(** A refresh of room 42 that loses the read of the player set: the
    round trips in the order they reach the server, and the line the
    player refresher logs. *)
Example refresh_with_lost_read :
  exists w',
    setRoomTTL (redis := flaky) 5 "42" demoWorld = Some (Fulfilled tt, w')
    /\ map fst (trace w')
       = [ Exec (expireAll TTL.ROOM (baseKeys "42"));
           Smembers "Room:42:Players";
           Smembers "Room:42:QuizSet";
           Exec (quizPipeline "42" ["q1"]) ]
    /\ log w' = [Error (playersFailed "42") "ECONNRESET"]
    /\ ttlOf (db w') "Room:42" = Some TTL.ROOM
    /\ ttlOf (db w') "Room:42:Quiz:q1" = Some TTL.QUIZ
    /\ ttlOf (db w') "Player:p1" = Some 5.
Proof. eexists. vm_compute. repeat split. Qed.

(** ** The theorems at work on the small store *)

Lemma setRoomTTL_never_rejects_witness :
  exists outcomes w',
    allSettled (redis := flaky) 5 (roomTasks "42") demoWorld = Some (outcomes, w')
    /\ outcomes = [Fulfilled tt; Fulfilled tt; Fulfilled tt]
    /\ length outcomes = 3%nat
    /\ setRoomTTL (redis := flaky) 5 "42" demoWorld = Some (Fulfilled tt, w').
Proof.
  apply (setRoomTTL_never_rejects (redis := flaky) 5 "42" demoWorld).
  apply le_n.
Defined.

Lemma setRoomTTL_isolates_failures_witness :
  exists w' (rest : list (request * option string)),
    setRoomTTL (redis := flaky) 5 "42" demoWorld = Some (Fulfilled tt, w')
    /\ In (Exec (quizPipeline "42" ["q1"]), None) rest
    /\ db w'
       = snd (execPipeline (quizPipeline "42" ["q1"])
               (snd (execPipeline (pagePipeline [REDIS_KEY.ROOM "42"]) demoDb))).
Proof.
  destruct (setRoomTTL_isolates_failures (redis := flaky) 5 "42" demoWorld (le_n 5))
    as (w' & rest & Hrun & _ & _ & _ & Hlost).
  exists w', rest. split; [exact Hrun|].
  apply (Hlost "ECONNRESET" ["q1"]).
  - reflexivity.
  - intros i Hi. simpl. destruct (Nat.eqb_spec i 1); [contradiction|reflexivity].
  - reflexivity.
Defined.

Lemma manageTTL_contains_failures_witness :
  fst (run (redis := flaky) (manageTTL 3) demoWorld) = Some (Fulfilled tt)
  /\ length (trace (snd (run (redis := flaky) (manageTTL 3) demoWorld))) = 2%nat
  /\ log (snd (run (redis := flaky) (manageTTL 3) demoWorld))
     = [Error "TTL 관리 실패" "ECONNRESET"].
Proof.
  destruct (manageTTL_contains_failures (redis := flaky) 3 demoWorld)
    as (_ & Hfail & _).
  eapply (Hfail 1%nat).
  - apply le_0_n.
  - vm_compute. reflexivity.
Defined.

Lemma manageTTL_visits_scanned_keys_witness :
  exists w' ts,
    run (redis := reliable) (manageTTL 3) demoWorld = (Some (Fulfilled tt), w')
    /\ trace w' = trace demoWorld ++ ts
    /\ length (scans ts) = 2%nat
    /\ delivered ts
       = [ expireAll TTL.ROOM (baseKeys "42") ++ expireAll TTL.ROOM (baseKeys "42");
           expireAll TTL.ROOM (baseKeys "42") ++ expireAll TTL.ROOM (baseKeys "42")
           ++ expireAll TTL.ROOM (baseKeys "42") ]
    /\ dom (db w') = dom demoDb.
Proof.
  destruct (manageTTL_visits_scanned_keys (redis := reliable) 3 demoWorld
              [ ["Room:42:CurrentQuiz"; "Room:42:QuizSet"];
                ["Room:42:Quiz:q1"; "Room:42:Players"; "Room:42"] ])
    as (w' & ts & Hrun & T & S & Dl & _ & _ & Hdom).
  - intros i. reflexivity.
  - vm_compute. reflexivity.
  - exists w', ts. split; [exact Hrun|]. split; [exact T|]. split; [exact S|].
    split; [exact Dl | exact Hdom].
Defined.

(** C8, as stated, on a store of three rooms that only the sweep touches,
    with a server that returns two of the three room keys a second time.
    The sweep is fulfilled and the set of keys stays as it was, but the
    record of room 1, one key of the store, is expired twice in the sweep,
    once for each time the scan returned its key; the record of room 2 is
    expired once. *)
Lemma manageTTL_visits_counterexample :
  let swept := run (redis := repeating) (manageTTL 3) (World roomsDb [] []) in
  NoDup (roomKeys roomsDb)
  /\ In "Room:1" (roomKeys roomsDb)
  /\ scanPages (redis := repeating) 3 (dom roomsDb) "0"
     = Some [ ["Room:3"; "Room:1"]; ["Room:3"; "Room:1"; "Room:2"] ]
  /\ fst swept = Some (Fulfilled tt)
  /\ elements (dom (db (snd swept))) = elements (dom roomsDb)
  /\ commandsOn "Room:1" (delivered (trace (snd swept))) = 2%nat
  /\ commandsOn "Room:2" (delivered (trace (snd swept))) = 1%nat
  /\ commandsOn "Room:1" (delivered (trace (snd swept))) <> 1%nat.
Proof.
  cbv zeta. split.
  { unfold roomKeys. apply NoDup_filter, NoDup_elements. }
  split; [vm_compute; tauto|].
  repeat split; try (vm_compute; reflexivity).
  vm_compute. discriminate.
Qed.

(** C4, as stated, on the store of the scenario: [Room:42], the player
    set and the quiz set, and no other key.  The refresh is fulfilled, but
    the leaderboard and the record of [p1] are not in the store, so they
    have no time to live afterwards: [EXPIRE] does not create them. *)
Lemma setRoomTTL_room_42_counterexample :
  scenarioDb !! "Room:42:Players" = Some (Entry (VSet ["p1"; "p2"]) None)
  /\ scenarioDb !! "Room:42:QuizSet" = Some (Entry (VSet ["q1"]) None)
  /\ exists w',
       setRoomTTL (redis := reliable) 5 "42" (World scenarioDb [] [])
       = Some (Fulfilled tt, w')
       /\ ttlOf (db w') "Room:42" = Some TTL.ROOM
       /\ ttlOf (db w') "Room:42:Leaderboard" <> Some TTL.ROOM
       /\ ttlOf (db w') "Player:p1" <> Some TTL.PLAYER
       /\ ttlOf (db w') "Room:42:Quiz:q1" <> Some TTL.QUIZ.
Proof.
  split; [vm_compute; reflexivity|]. split; [vm_compute; reflexivity|].
  eexists. split; [vm_compute; reflexivity|].
  split; [vm_compute; reflexivity|].
  split; [|split]; vm_compute; discriminate.
Qed.

Lemma setRoomTTL_room_42_witness :
  exists w',
    setRoomTTL (redis := reliable) 5 "42" demoWorld = Some (Fulfilled tt, w')
    /\ db w' !! "Room:42" = Some (Entry VOther (Some TTL.ROOM))
    /\ db w' !! "Player:p1" = Some (Entry VOther (Some TTL.PLAYER))
    /\ db w' !! "Room:42:Quiz:q1" = Some (Entry VOther (Some TTL.QUIZ))
    /\ db w' !! "Room:42:QuizSet" = Some (Entry (VSet ["q1"]) None).
Proof.
  destruct (setRoomTTL_room_42 (redis := reliable) 5 demoWorld None None (le_n 5))
    as (w' & Hrun & _ & Hroom & Hplayer & Hquiz & _ & Hother).
  - intros i. reflexivity.
  - vm_compute. reflexivity.
  - vm_compute. reflexivity.
  - exists w'. split; [exact Hrun|]. split; [|split; [|split]].
    + apply (Hroom "Room:42" (Entry VOther None)); [simpl; tauto|].
      vm_compute. reflexivity.
    + apply (Hplayer "Player:p1" (Entry VOther (Some 5))); [simpl; tauto|].
      vm_compute. reflexivity.
    + apply (Hquiz "Room:42:Quiz:q1" (Entry VOther (Some 120))); [simpl; tauto|].
      vm_compute. reflexivity.
    + rewrite Hother; [vm_compute; reflexivity|].
      simpl. intros H. decompose [or] H; try discriminate; assumption.
Defined.

Lemma setRoomTTL_idempotent_witness :
  exists w1 w2,
    setRoomTTL (redis := reliable) 5 "42" demoWorld = Some (Fulfilled tt, w1)
    /\ setRoomTTL (redis := reliable) 5 "42" w1 = Some (Fulfilled tt, w2)
    /\ db w2 = db w1
    /\ db w2 !! "Room:42:CurrentQuiz" = Some (Entry VOther (Some 10800))
    /\ db w2 !! "Player:p1" = Some (Entry VOther (Some 7200))
    /\ db w2 !! "Room:42:Quiz:q1" = Some (Entry VOther (Some 3600)).
Proof.
  destruct (setRoomTTL_idempotent (redis := reliable) 5 "42" demoWorld (le_n 5))
    as (w1 & w2 & ts & H1 & H2 & E & _ & _ & _ & _ & _ & H).
  - intros i. reflexivity.
  - exists w1, w2. split; [exact H1|]. split; [exact H2|]. split; [exact E|].
    split; [|split].
    + apply (H "Room:42:CurrentQuiz" (Entry VOther (Some 60)));
        [vm_compute; reflexivity | discriminate | simpl; tauto].
    + apply (H "Player:p1" (Entry VOther (Some 5)) eq_refl) with ["p1"; "p2"] None "p1";
        [vm_compute; reflexivity | simpl; tauto | reflexivity].
    + apply (H "Room:42:Quiz:q1" (Entry VOther (Some 120)) eq_refl) with ["q1"] None "q1";
        [vm_compute; reflexivity | simpl; tauto | now left].
Defined.

Lemma refresh_never_creates_keys_witness :
  exists w' ts,
    allSettled (redis := reliable) 5 (roomTasks "nonexistent") demoWorld
    = Some ([Fulfilled tt; Fulfilled tt; Fulfilled tt], w')
    /\ trace w' = trace demoWorld ++ ts
    /\ unfailed ts
    /\ db w' = demoDb.
Proof.
  destruct (refresh_never_creates_keys (redis := reliable) 5 "nonexistent"
              demoWorld (le_n 5)) as (_ & _ & _ & Habsent).
  apply Habsent.
  - intros i. reflexivity.
  - vm_compute. repeat constructor.
Defined.

Lemma processBatch_skips_malformed_witness :
  run (redis := reliable) (processBatch (["Room:42"; "Room"] ++ "Room:" :: ["Room:7"]))
      demoWorld
  = (Some (Fulfilled tt),
     World (snd (execPipeline
                   (fold_left enqueueRoom (["Room:42"; "Room"] ++ ["Room:7"]) [])
                   demoDb))
           [(Exec (fold_left enqueueRoom (["Room:42"; "Room"] ++ ["Room:7"]) []),
             None)]
           []).
Proof.
  destruct (processBatch_skips_malformed (redis := reliable)
              ["Room:42"; "Room"] "Room:" ["Room:7"] demoWorld)
    as (_ & _ & Hrun & _).
  - reflexivity.
  - reflexivity.
  - exact Hrun.
Defined.

Lemma setRoomTTL_base_identifier_witness :
  fold_left enqueueRoom [REDIS_KEY.ROOM ""] [] = []
  /\ exists w' r2 r3 rest,
       setRoomTTL (redis := flaky) 5 "" demoWorld = Some (Fulfilled tt, w')
       /\ trace w'
          = [ (Exec [], None);
              (Smembers "Room::Players", r2);
              (Smembers "Room::QuizSet", r3) ] ++ rest.
Proof.
  destruct (setRoomTTL_base_identifier (redis := flaky) 5 "" demoWorld (le_n 5))
    as (_ & _ & Hbatch & _ & Hrun).
  split; [exact Hbatch | exact Hrun].
Defined.

(** ** The further theorems at work on the small store *)


Lemma manageTTL_unbounded_witness :
  fst (run (redis := endless) (manageTTL 4) demoWorld) = None
  /\ log (snd (run (redis := endless) (manageTTL 4) demoWorld)) = []
  /\ exists ts,
       trace (snd (run (redis := endless) (manageTTL 4) demoWorld)) = [] ++ ts
       /\ length (scans ts) = 4%nat.
Proof.
  apply (manageTTL_unbounded (redis := endless) 4 demoWorld).
  - intros i. reflexivity.
  - intros keys cursor. simpl. discriminate.
Defined.

Lemma manageTTL_extends_base_keys_witness :
  db (snd (run (redis := reliable) (manageTTL 3) demoWorld)) !! "Room:42:CurrentQuiz"
  = Some (Entry VOther (Some TTL.ROOM)).
Proof.
  apply (manageTTL_extends_base_keys (redis := reliable) 3 demoWorld
           [ ["Room:42:CurrentQuiz"; "Room:42:QuizSet"];
             ["Room:42:Quiz:q1"; "Room:42:Players"; "Room:42"] ]
           (fun i => eq_refl)
           ltac:(vm_compute; reflexivity)
           "Room:42:QuizSet" "42" "Room:42:CurrentQuiz" (Entry VOther (Some 60))).
  - simpl. tauto.
  - reflexivity.
  - simpl. tauto.
  - vm_compute. reflexivity.
Defined.

Lemma setRoomTTL_never_extends_quiz_set_witness :
  exists w',
    setRoomTTL (redis := flaky) 5 "42" demoWorld = Some (Fulfilled tt, w')
    /\ db w' !! "Room:42:QuizSet" = demoDb !! "Room:42:QuizSet".
Proof.
  destruct (setRoomTTL_never_extends_quiz_set (redis := flaky) 5 "42" demoWorld
              (le_n 5)) as (w' & Hrun & _ & Hset).
  exists w'. split; [exact Hrun | exact Hset].
Defined.

Lemma manageTTL_idempotent_witness :
  fst (run (redis := reliable) (manageTTL 3) demoWorld) = Some (Fulfilled tt)
  /\ db (snd (run (redis := reliable) (manageTTL 3)
                   (snd (run (redis := reliable) (manageTTL 3) demoWorld))))
     = db (snd (run (redis := reliable) (manageTTL 3) demoWorld)).
Proof.
  destruct (manageTTL_idempotent (redis := reliable) 3 demoWorld
              [ ["Room:42:CurrentQuiz"; "Room:42:QuizSet"];
                ["Room:42:Quiz:q1"; "Room:42:Players"; "Room:42"] ])
    as (O1 & _ & _ & E).
  - intros i. reflexivity.
  - vm_compute. reflexivity.
  - split; [exact O1 | exact E].
Defined.

Lemma sweep_and_refresh_commute_witness :
  exists refreshed swept both,
    setRoomTTL (redis := reliable) 5 "42" demoWorld = Some (Fulfilled tt, refreshed)
    /\ run (redis := reliable) (manageTTL 3) demoWorld = (Some (Fulfilled tt), swept)
    /\ setRoomTTL (redis := reliable) 5 "42" swept = Some (Fulfilled tt, both)
    /\ db (snd (run (redis := reliable) (manageTTL 3) refreshed)) = db both.
Proof.
  destruct (sweep_and_refresh_commute (redis := reliable) 3 5 "42" demoWorld
              [ ["Room:42:CurrentQuiz"; "Room:42:QuizSet"];
                ["Room:42:Quiz:q1"; "Room:42:Players"; "Room:42"] ] (le_n 5))
    as (refreshed & swept & Hr & _ & Hs & both & Hb & E).
  - intros i. reflexivity.
  - vm_compute. reflexivity.
  - exists refreshed, swept, both. auto.
Defined.

Lemma setRoomTTL_order_irrelevant_witness :
  exists w',
    setRoomTTL (redis := reliable) 5 "42" demoWorld = Some (Fulfilled tt, w')
    /\ db (runSeq (redis := reliable)
                  [setQuizTTL "42"; processBatch [REDIS_KEY.ROOM "42"];
                   setPlayersTTL "42"] demoWorld)
       = db w'.
Proof.
  apply (setRoomTTL_order_irrelevant (redis := reliable) 5 "42" demoWorld
           [Quizzes; BaseKeys; Players] (le_n 5)).
  - intros i. reflexivity.
  - apply perm_trans with [BaseKeys; Quizzes; Players].
    + apply perm_swap.
    + apply perm_skip, perm_swap.
Defined.

Lemma setRoomTTL_logs_refreshers_only_witness :
  exists w',
    setRoomTTL (redis := reliable) 5 "42" demoWorld = Some (Fulfilled tt, w')
    /\ log w' = [].
Proof.
  destruct (setRoomTTL_logs_refreshers_only (redis := reliable) 5 "42" demoWorld
              (le_n 5)) as (w' & lines & Hrun & Hlog & _ & _ & Hsilent).
  exists w'. split; [exact Hrun|].
  rewrite Hlog. apply (Hsilent ["p1"; "p2"] ["q1"]).
  - intros i _. reflexivity.
  - reflexivity.
  - reflexivity.
Defined.

Lemma setPlayersTTL_catches_witness :
  fst (run (redis := flaky) (setPlayersTTL "42") demoWorld) = Some (Fulfilled tt)
  /\ log (snd (run (redis := flaky) (setPlayersTTL "42") demoWorld))
     = [Error (playersFailed "42") "ECONNRESET"].
Proof.
  destruct (setPlayersTTL_catches (redis := flaky) "42" demoWorld)
    as (O & r & ts & T & _ & _ & Hfail).
  split; [exact O|].
  apply (Hfail (Exec (playerPipeline ["p1"; "p2"])) "ECONNRESET").
  vm_compute in T. injection T as <- <-. right. left. reflexivity.
Defined.

Lemma setQuizTTL_catches_witness :
  fst (run (redis := reliable) (setQuizTTL "42") demoWorld) = Some (Fulfilled tt)
  /\ log (snd (run (redis := reliable) (setQuizTTL "42") demoWorld)) = [].
Proof.
  destruct (setQuizTTL_catches (redis := reliable) "42" demoWorld)
    as (O & r & ts & T & _ & Hok & _).
  split; [exact O|].
  apply Hok.
  vm_compute in T. injection T as <- <-. repeat constructor.
Defined.

Lemma manageTTL_writes_base_keys_only_witness :
  db (snd (run (redis := reliable) (manageTTL 3) demoWorld)) !! "Player:p1"
  = demoDb !! "Player:p1".
Proof.
  destruct (manageTTL_writes_base_keys_only (redis := reliable) 3 demoWorld)
    as (Hframe & _).
  apply Hframe.
  intros roomId _ [E|[E|[E|[E|[]]]]]; discriminate.
Defined.

Lemma enqueueRoom_second_segment_only_witness :
  enqueueRoom [] "Player:p1" = enqueueRoom [] (REDIS_KEY.ROOM "p1").
Proof.
  destruct (enqueueRoom_second_segment_only "42" "q1" []) as (_ & _ & Hns).
  apply (Hns "Player" "p1").
  simpl. intros [E|[E|[E|[E|[E|[E|[]]]]]]]; discriminate.
Defined.
